(** * h-a-kvnl: hierarchical annotated key-value codec

    A shallow embedding of [h_a_kvnl.py] (decoder [read_single] / [read],
    encoder [write_single] / [write], the built-in [Map] / [List] handlers)
    and the properties of the codec stated over it.

    Modelling conventions.
    - A Python generator is modelled by its complete run: the list of items
      it yields, in order, and how it ends (normal return, with the position
      the shared stream is left at, or a raised exception).  A consumer of a
      generator ([dict], [list], [tuple], a [for] loop) walks the yielded
      items in order and only then meets the way the run ended, which is
      what lazy evaluation does.
    - The shared record stream is the list of items still to be pulled.
    - Recursion between [read] and [read_single] goes through a fuel
      argument; [fuel_for] gives an amount that is always sufficient. *)

From Stdlib Require Import String Ascii List Bool Arith Lia.
Set Warnings "-register-all".
Import ListNotations.
Local Open Scope string_scope.
Local Open Scope list_scope.

(** ** Python exceptions raised by the module *)

Inductive exn : Type :=
| DecodingError
| ValueError
| EOFError
| TypeError
| AttributeError.

(** ** Values and lines *)

(** Keys of a Python [dict]: strings, and non-string hashables. *)
Inductive dkey : Type :=
| KStr (s : string)
| KInt (n : nat)
| KBytes (b : string).

(** Python values handled by the codec.  [VBytes] holds the content of a
    [bytes] object.  [VPair a v] is the two-element
    tuple [(a, v)]; [VHier a v cs] is a [HierarchicalValueTuple] whose
    children are a tuple of lines.  A line is [None], the terminal marker
    ['\n'], or a [(key, value)] tuple. *)
Inductive value : Type :=
| VNone
| VInt (n : nat)
| VStr (s : string)
| VBytes (b : string)
| VPair (a : string) (v : value)
| VDict (items : list (dkey * value))
| VList (items : list value)
| VHier (a : string) (v : value) (children : list line)
with line : Type :=
| LNone
| LTerm
| LPair (k : string) (v : value).

Definition stream := list line.

(** Python truthiness ([if value:]). *)
Definition truthy (v : value) : bool :=
  match v with
  | VNone => false
  | VInt n => negb (Nat.eqb n 0)
  | VStr s => negb (String.eqb s "")
  | VBytes b => negb (String.eqb b "")
  | VPair _ _ => true
  | VDict items => negb (Nat.eqb (length items) 0)
  | VList items => negb (Nat.eqb (length items) 0)
  | VHier _ _ _ => true
  end.

(** ** String operations used by the module *)

(** [key.startswith(prefix)] *)
Fixpoint startswith (key prefix : string) {struct prefix} : bool :=
  match prefix with
  | EmptyString => true
  | String c p =>
      match key with
      | EmptyString => false
      | String d k => Ascii.eqb c d && startswith k p
      end
  end.

(** [key.removeprefix(prefix)] *)
Fixpoint drop (n : nat) (s : string) : string :=
  match n with
  | 0 => s
  | S m => match s with EmptyString => EmptyString | String _ t => drop m t end
  end.

Definition removeprefix (key prefix : string) : string :=
  if startswith key prefix then drop (String.length prefix) key else key.

Definition gt : ascii := ">"%char.

(** ['>' in annotation] *)
Fixpoint has_gt (a : string) : bool :=
  match a with
  | EmptyString => false
  | String c t => Ascii.eqb c gt || has_gt t
  end.

(** [annotation.split('>', maxsplit=1)] on a string that contains ['>']. *)
Fixpoint split_gt (a : string) : string * string :=
  match a with
  | EmptyString => (EmptyString, EmptyString)
  | String c t =>
      if Ascii.eqb c gt then (EmptyString, t)
      else let '(tag, suffix) := split_gt t in (String c tag, suffix)
  end.

(** [annotation in annotations] for a tuple of aliases. *)
Fixpoint mem_str (a : string) (aliases : list string) : bool :=
  match aliases with
  | [] => false
  | x :: xs => String.eqb a x || mem_str a xs
  end.

(** ** Python [dict] as an insertion-ordered association list *)

Definition dkey_eqb (a b : dkey) : bool :=
  match a, b with
  | KStr x, KStr y => String.eqb x y
  | KInt x, KInt y => Nat.eqb x y
  | KBytes x, KBytes y => String.eqb x y
  | _, _ => false
  end.

(** [d[k] = v]: an existing key keeps its position and takes the new value,
    a new key is appended. *)
Fixpoint dict_set {A : Type} (d : list (dkey * A)) (k : dkey) (v : A)
  : list (dkey * A) :=
  match d with
  | [] => [(k, v)]
  | (k', v') :: rest =>
      if dkey_eqb k' k then (k', v) :: rest
      else (k', v') :: dict_set rest k v
  end.

Fixpoint dict_get {A : Type} (d : list (dkey * A)) (k : dkey) : option A :=
  match d with
  | [] => None
  | (k', v') :: rest => if dkey_eqb k' k then Some v' else dict_get rest k
  end.

(** ** Generator runs *)

(** The run of [read]: the lines it yields and how it ends.  [Done ys rest]
    is a normal return leaving the shared stream at [rest]; [Fail ys e]
    raises [e] after having yielded [ys]. *)
Inductive run : Type :=
| Done (ys : list line) (rest : stream)
| Fail (ys : list line) (e : exn)
| OutOfFuel.

(** The run of [read_single], one constructor per exit of its body.  Each
    starts with [skips] yields of [None] (the [continue] branch). *)
Inductive single_run : Type :=
| YieldTerm (skips : nat) (rest : stream)
| YieldPair (skips : nat) (k : string) (v : value) (rest : stream)
| Raises (skips : nat) (e : exn)
| SingleFuel.

Definition skip_more (r : single_run) : single_run :=
  match r with
  | YieldTerm n rest => YieldTerm (S n) rest
  | YieldPair n k v rest => YieldPair (S n) k v rest
  | Raises n e => Raises (S n) e
  | SingleFuel => SingleFuel
  end.

Definition yield_first (ys : list line) (r : run) : run :=
  match r with
  | Done zs rest => Done (ys ++ zs) rest
  | Fail zs e => Fail (ys ++ zs) e
  | OutOfFuel => OutOfFuel
  end.

(** What a handler makes of the children generator it is given. *)
Inductive handled : Type :=
| Value (v : value) (rest : stream)
| Raise (e : exn)
| HandlerFuel.

(** ** Built-in decoders *)

(** [dict(stream)], continuing from the entries [d] already inserted. *)
Fixpoint dict_update (d : list (dkey * value)) (ys : list line)
  : exn + list (dkey * value) :=
  match ys with
  | [] => inr d
  | LNone :: _ => inl TypeError
  | LTerm :: _ => inl ValueError
  | LPair k v :: t => dict_update (dict_set d (KStr k) v) t
  end.

(** [ensure_empty_key] *)
Definition ensure_empty_key (key : string) (v : value) : exn + value :=
  if negb (String.eqb key "") then inl DecodingError else inr v.

(** [list(ensure_empty_key(key, value) for key, value in stream)] *)
Fixpoint list_collect (ys : list line) : exn + list value :=
  match ys with
  | [] => inr []
  | LNone :: _ => inl TypeError
  | LTerm :: _ => inl ValueError
  | LPair k v :: t =>
      match ensure_empty_key k v with
      | inl e => inl e
      | inr v' =>
          match list_collect t with
          | inl e => inl e
          | inr vs => inr (v' :: vs)
          end
      end
  end.

(** A consumer that walks the whole children generator: [walk] sees the
    yielded lines first, the end of the run afterwards. *)
Definition consume (walk : list line -> exn + value) (children : run)
  : handled :=
  match children with
  | Done ys rest =>
      match walk ys with inl e => Raise e | inr v => Value v rest end
  | Fail ys e =>
      match walk ys with inl e' => Raise e' | inr _ => Raise e end
  | OutOfFuel => HandlerFuel
  end.

Definition decode_map (v : value) (children : run) : handled :=
  if truthy v then Raise DecodingError
  else consume (fun ys => match dict_update [] ys with
                          | inl e => inl e
                          | inr d => inr (VDict d)
                          end) children.

Definition decode_list (v : value) (children : run) : handled :=
  if truthy v then Raise DecodingError
  else consume (fun ys => match list_collect ys with
                          | inl e => inl e
                          | inr vs => inr (VList vs)
                          end) children.

(** [HierarchicalValueTuple(annotation, value, children)]: [tuple(children)]. *)
Definition HierarchicalValueTuple (a : string) (v : value) (children : run)
  : handled :=
  consume (fun ys => inr (VHier a v ys)) children.

(** A caller's handler that first materialises the children
    ([tuple(children)]) and then computes its result from them. *)
Definition materialise (f : list line -> exn + value) (children : run)
  : handled :=
  match children with
  | Done ys rest =>
      match f ys with inl e => Raise e | inr v => Value v rest end
  | Fail _ e => Raise e
  | OutOfFuel => HandlerFuel
  end.

(** A registered decoder: one of the built-in ones, or a caller's handler
    that materialises the children and computes a value from them. *)
Inductive decoder : Type :=
| DecodeMap
| DecodeList
| DecodeWith (f : value -> list line -> exn + value).

Definition apply_decoder (d : decoder) (v : value) (children : run) : handled :=
  match d with
  | DecodeMap => decode_map v children
  | DecodeList => decode_list v children
  | DecodeWith f => materialise (f v) children
  end.

(** The [default] argument of [read_single]: [raise_decoding_error] (the
    default of the argument), [None], or a caller's factory that
    materialises the children. *)
Inductive default_decoder : Type :=
| raise_decoding_error
| DefaultNone
| DefaultFactory (f : string -> value -> list line -> exn + value).

Definition apply_default (d : default_decoder) (a : string) (v : value)
  (children : run) : handled :=
  match d with
  | raise_decoding_error => Raise DecodingError
  | DefaultNone => HierarchicalValueTuple a v children
  | DefaultFactory f => materialise (f a v) children
  end.

Definition registry := list (list string * decoder).

Definition DECODERS : registry :=
  [ (["Map"; "M"], DecodeMap); (["List"; "L"], DecodeList) ].

(** [for annotations, decode in decoders.items(): if annotation in annotations] *)
Fixpoint find_handler {H : Type} (tag : string) (table : list (list string * H))
  : option H :=
  match table with
  | [] => None
  | (aliases, h) :: rest =>
      if mem_str tag aliases then Some h else find_handler tag rest
  end.

(** The annotation and scalar part of a payload: a tuple is unpacked, an
    object exposes its [annotation] and [value] attributes, anything else
    has no annotation. *)
Definition annotation_of (v : value) : option string :=
  match v with
  | VPair a _ => Some a
  | VHier a _ _ => Some a
  | _ => None
  end.

Definition scalar_of (v : value) : value :=
  match v with
  | VPair _ s => s
  | VHier _ s _ => s
  | _ => v
  end.

Definition is_leaf (v : value) : bool :=
  match annotation_of v with
  | None => true
  | Some a => negb (has_gt a)
  end.

(** The body of [read]'s loop on one run of [read_single]: its yields are
    forwarded; a terminal marker ends the block, a pair is followed by the
    next [read_single] on the same stream, an exception propagates. *)
Definition of_single (r : single_run) (continue : stream -> run) : run :=
  match r with
  | YieldTerm n rest => Done (repeat LNone n) rest
  | YieldPair n k v rest => yield_first (repeat LNone n ++ [LPair k v]) (continue rest)
  | Raises n e => Fail (repeat LNone n) e
  | SingleFuel => OutOfFuel
  end.

(** ** Decoder: [read_single] and [read] with a decoder registry *)

Fixpoint read_single (fuel : nat) (decoders : registry)
  (default : default_decoder) (prefix : string) (s : stream) : single_run :=
  match fuel with
  | 0 => SingleFuel
  | S fuel' =>
      match s with
      | [] => Raises 0 EOFError
      | LNone :: s' => skip_more (read_single fuel' decoders default prefix s')
      | LTerm :: s' => YieldTerm 0 s'
      | LPair key orig_value :: s' =>
          if negb (startswith key prefix) then Raises 0 DecodingError
          else
            let key := removeprefix key prefix in
            if is_leaf orig_value then YieldPair 0 key orig_value s'
            else
              let annotation := match annotation_of orig_value with
                                | Some a => a
                                | None => ""
                                end in
              let v := scalar_of orig_value in
              let '(annotation, next_prefix) := split_gt annotation in
              let children :=
                read fuel' decoders default (prefix ++ next_prefix) s' in
              let made :=
                match find_handler annotation decoders with
                | Some decode => apply_decoder decode v children
                | None => apply_default default annotation v children
                end in
              match made with
              | Value v' rest => YieldPair 0 key v' rest
              | Raise e => Raises 0 e
              | HandlerFuel => SingleFuel
              end
      end
  end

with read (fuel : nat) (decoders : registry) (default : default_decoder)
  (prefix : string) (s : stream) : run :=
  match fuel with
  | 0 => OutOfFuel
  | S fuel' =>
      of_single (read_single fuel' decoders default prefix s)
                (read fuel' decoders default prefix)
  end.

(** Fuel that is always enough for a stream. *)
Definition fuel_for (s : stream) : nat := 2 * length s + 2.

(** [list(read(iter(stream)))] with the default registries. *)
Definition decode (s : stream) : run :=
  read (fuel_for s) DECODERS raise_decoding_error "" s.

(** ** Decoder: [read_single] with [decoders=None] *)

(** With [decoders=None] the body of [read_single] never iterates the
    children generator: it yields [HierarchicalValue(annotation, value,
    children)] holding the suspended generator
    [read(stream, None, default, prefix + next_prefix)] and returns.
    [YieldSuspended] records that yield: the tag, the scalar part, the prefix
    the suspended generator was created with, and the position of the shared
    stream when the pair is yielded. *)
Inductive raw_run : Type :=
| RawTerm (skips : nat) (rest : stream)
| RawLeaf (skips : nat) (k : string) (v : value) (rest : stream)
| YieldSuspended (skips : nat) (k : string) (tag : string) (v : value)
    (child_prefix : string) (rest : stream)
| RawRaises (skips : nat) (e : exn).

Definition raw_skip_more (r : raw_run) : raw_run :=
  match r with
  | RawTerm n rest => RawTerm (S n) rest
  | RawLeaf n k v rest => RawLeaf (S n) k v rest
  | YieldSuspended n k a v p rest => YieldSuspended (S n) k a v p rest
  | RawRaises n e => RawRaises (S n) e
  end.

Fixpoint read_single_no_decoders (prefix : string) (s : stream) : raw_run :=
  match s with
  | [] => RawRaises 0 EOFError
  | LNone :: s' => raw_skip_more (read_single_no_decoders prefix s')
  | LTerm :: s' => RawTerm 0 s'
  | LPair key orig_value :: s' =>
      if negb (startswith key prefix) then RawRaises 0 DecodingError
      else
        let key := removeprefix key prefix in
        if is_leaf orig_value then RawLeaf 0 key orig_value s'
        else
          let annotation := match annotation_of orig_value with
                            | Some a => a
                            | None => ""
                            end in
          let v := scalar_of orig_value in
          let '(annotation, next_prefix) := split_gt annotation in
          YieldSuspended 0 key annotation v (prefix ++ next_prefix) s'
  end.

(** ** Encoder: [write_single] and [write]

    The encoder is taken at its default registries, [ENCODERS] and [TYPES],
    and [default=None]; [prefix] and [prefixes] are arguments. *)

(** How the run of an encoder-side generator ends.  [NotLines] stands for
    [write] iterating children that are not a sequence of lines (a native
    [dict] or [list] reaching the [default is None] branch); with [ENCODERS]
    and [TYPES] this branch is never taken ([write_single_lines_only]). *)
Inductive wend : Type :=
| Returns
| Throws (e : exn)
| WriteFuel
| NotLines.

Definition wrun : Type := list line * wend.

(** The [children] variable of [write_single]. *)
Inductive children_of : Type :=
| CNone
| CDict (d : list (dkey * value))
| CList (l : list value)
| CLines (ls : list line).

Inductive encoder : Type :=
| EncodeMap
| EncodeList.

Inductive pytype : Type :=
| TDict
| TList.

Definition ENCODERS : list (list string * encoder) :=
  [ (["Map"; "M"], EncodeMap); (["List"; "L"], EncodeList) ].

Definition TYPES : list (pytype * string) := [ (TDict, "M"); (TList, "L") ].

Definition isinstance (v : value) (t : pytype) : bool :=
  match t, v with
  | TDict, VDict _ => true
  | TList, VList _ => true
  | _, _ => false
  end.

(** [for t, a in types.items(): if isinstance(value, t): ... break] *)
Fixpoint detect (types : list (pytype * string)) (v : value) : option string :=
  match types with
  | [] => None
  | (t, a) :: rest => if isinstance v t then Some a else detect rest v
  end.

(** A line, a key or a native container seen as a plain Python value. *)
Definition value_of_line (l : line) : value :=
  match l with
  | LNone => VNone
  | LTerm => VStr (String "010"%char EmptyString)
  | LPair k v => VPair k v
  end.

Definition value_of_key (k : dkey) : value :=
  match k with
  | KStr s => VStr s
  | KInt n => VInt n
  | KBytes b => VBytes b
  end.

(** [encode_map]: the pairs it yields and how it ends. *)
Fixpoint encode_map_items (d : list (dkey * value)) : wrun :=
  match d with
  | [] => ([], Returns)
  | (KStr k, v) :: rest =>
      let '(ys, e) := encode_map_items rest in (LPair k v :: ys, e)
  | _ :: _ => ([], Throws ValueError)
  end.

Definition encode_map (v : value) (children : children_of) : wrun :=
  if truthy v then ([], Throws DecodingError)
  else match children with
       | CDict d => encode_map_items d
       | _ => ([], Throws AttributeError)
       end.

(** [encode_list] *)
Definition encode_list (v : value) (children : children_of) : wrun :=
  if truthy v then ([], Throws DecodingError)
  else match children with
       | CNone => ([], Throws TypeError)
       | CDict d => (map (fun kv => LPair "" (value_of_key (fst kv))) d, Returns)
       | CList l => (map (LPair "") l, Returns)
       | CLines ls => (map (fun l => LPair "" (value_of_line l)) ls, Returns)
       end.

Definition apply_encoder (enc : encoder) (v : value) (children : children_of)
  : wrun :=
  match enc with
  | EncodeMap => encode_map v children
  | EncodeList => encode_list v children
  end.

(** [for line in lines: yield from write_single(line, ...)] followed by
    [yield '\n']; [lines_end] is how the generator [lines] itself ends. *)
Fixpoint write_lines (ws : line -> wrun) (lines : list line) (lines_end : wend)
  : wrun :=
  match lines with
  | [] =>
      match lines_end with
      | Returns => ([LTerm], Returns)
      | e => ([], e)
      end
  | l :: rest =>
      match ws l with
      | (ys, Returns) =>
          let '(zs, e) := write_lines ws rest lines_end in (ys ++ zs, e)
      | (ys, e) => (ys, e)
      end
  end.

(** [annotation, value, children] as [write_single] destructures a value. *)
Definition destructure (v : value) : option string * value * children_of :=
  match v with
  | VHier a s cs => (Some a, s, CLines cs)
  | VPair a s => (Some a, s, CNone)
  | _ => (None, v, CNone)
  end.

(** The children as the lines [write(children, ...)] iterates. *)
Definition lines_of_children (c : children_of) : option wrun :=
  match c with
  | CNone => Some ([], Throws TypeError)
  | CLines ls => Some (ls, Returns)
  | CDict _ => None
  | CList _ => None
  end.

Definition joined (prefixes : list string) : string :=
  fold_right String.append "" prefixes.

Fixpoint write_single (fuel : nat) (prefix : string) (prefixes : list string)
  (key_and_value : line) : wrun :=
  match fuel with
  | 0 => ([], WriteFuel)
  | S fuel' =>
      match key_and_value with
      | LNone => ([LNone], Returns)
      | LTerm => ([LTerm], Returns)
      | LPair key v0 =>
          let '(annotation, v, children) := destructure v0 in
          let key := (joined prefixes ++ key)%string in
          let '(annotation, v, children) :=
            match annotation with
            | Some _ => (annotation, v, children)
            | None =>
                match detect TYPES v with
                | Some a => (Some a, VBytes "", match v with
                                                | VDict d => CDict d
                                                | VList l => CList l
                                                | _ => CNone
                                                end)
                | None => (annotation, v, children)
                end
            end in
          match annotation with
          | None =>
              match children with
              | CNone => ([LPair key v], Returns)
              | _ => ([], Throws DecodingError)
              end
          | Some annotation =>
              let full_annotation := (annotation ++ ">" ++ prefix)%string in
              let header := LPair key (VPair full_annotation v) in
              let below :=
                write_lines (write_single fuel' prefix (prefixes ++ [prefix])) in
              let '(ys, e) :=
                match find_handler annotation ENCODERS with
                | Some encode =>
                    let '(ls, le) := apply_encoder encode v children in
                    below ls le
                | None =>
                    match lines_of_children children with
                    | Some (ls, le) => below ls le
                    | None => ([], NotLines)
                    end
                end in
              (header :: ys, e)
          end
      end
  end.

(** [write(lines, ...)] for a list of lines. *)
Definition write (fuel : nat) (prefix : string) (prefixes : list string)
  (lines : list line) : wrun :=
  write_lines (write_single fuel prefix prefixes) lines Returns.

(** Nesting depth of a value, the fuel its encoding needs. *)
Fixpoint depth (v : value) : nat :=
  match v with
  | VPair _ s => S (depth s)
  | VDict d =>
      S ((fix go (d : list (dkey * value)) : nat :=
            match d with
            | [] => 0
            | (_, x) :: t => Nat.max (depth x) (go t)
            end) d)
  | VList l =>
      S ((fix go (l : list value) : nat :=
            match l with
            | [] => 0
            | x :: t => Nat.max (depth x) (go t)
            end) l)
  | VHier _ s cs =>
      S (Nat.max (depth s)
           ((fix go (cs : list line) : nat :=
               match cs with
               | [] => 0
               | LPair _ x :: t => Nat.max (depth x) (go t)
               | _ :: t => go t
               end) cs))
  | _ => 0
  end.

Definition depth_line (l : line) : nat :=
  match l with
  | LPair _ v => depth v
  | _ => 0
  end.

Definition depth_lines (ls : list line) : nat :=
  fold_right (fun l n => Nat.max (depth_line l) n) 0 ls.

(** [list(write(lines))] with the default arguments. *)
Definition encode (lines : list line) : wrun :=
  write (S (S (depth_lines lines))) "" [] lines.

(** [list(write_single(key_and_value))] with the default arguments. *)
Definition write_single_default (key_and_value : line) : wrun :=
  write_single (S (S (depth_line key_and_value))) "" [] key_and_value.
(** ** Vocabulary of the statements *)

(** What one run of [read_single] has taken from the stream [s]: the
    sentinels it skipped and, for a pair, the record and the block below it. *)
Definition single_pulled (s : stream) (r : single_run) : Prop :=
  match r with
  | YieldTerm n rest => s = repeat LNone n ++ LTerm :: rest
  | YieldPair n k v rest =>
      exists key v0 body,
        s = repeat LNone n ++ LPair key v0 :: body ++ rest
        /\ (body = [] \/ exists inner, body = inner ++ [LTerm])
  | _ => True
  end.

(** The children of a block as the pairs [read] yields. *)
Definition lines_of_pairs (kvs : list (string * value)) : list line :=
  map (fun kv => LPair (fst kv) (snd kv)) kvs.

(** The same children as the entries of a dictionary. *)
Definition entries_of_pairs (kvs : list (string * value))
  : list (dkey * value) :=
  map (fun kv => (KStr (fst kv), snd kv)) kvs.

(** [dict] filled with the children in order, starting from [d]. *)
Definition dict_of_pairs (d : list (dkey * value)) (kvs : list (string * value))
  : list (dkey * value) :=
  fold_left (fun d kv => dict_set d (KStr (fst kv)) (snd kv)) kvs d.

(** The lines a run has yielded, however it ended. *)
Definition run_yields (r : run) : option (list line) :=
  match r with
  | Done ys _ => Some ys
  | Fail ys _ => Some ys
  | OutOfFuel => None
  end.

(** A line that is a [(key, value)] record. *)
Definition is_record (l : line) : Prop := exists k v, l = LPair k v.

(** [isinstance(key, str)] *)
Definition is_str (k : dkey) : bool :=
  match k with
  | KStr _ => true
  | _ => false
  end.

(** The tag is an alias of one of the built-in handlers. *)
Definition registered (tag : string) : bool :=
  mem_str tag ["Map"; "M"; "List"; "L"].

(** The values of the model: scalars, mappings with string keys and
    sequences of model values and, when [generic] is set, hierarchical
    values with an unregistered tag whose children are skip sentinels and
    records of model values. *)
Inductive model_value (generic : bool) : value -> Prop :=
| model_none : model_value generic VNone
| model_int n : model_value generic (VInt n)
| model_str s : model_value generic (VStr s)
| model_bytes b : model_value generic (VBytes b)
| model_dict kvs :
    NoDup (map fst kvs) ->
    (forall k v, In (k, v) kvs -> model_value generic v) ->
    model_value generic (VDict (entries_of_pairs kvs))
| model_list l :
    (forall v, In v l -> model_value generic v) ->
    model_value generic (VList l)
| model_hier tag sv cs :
    generic = true ->
    has_gt tag = false ->
    registered tag = false ->
    ~ In LTerm cs ->
    (forall k v, In (LPair k v) cs -> model_value generic v) ->
    model_value generic (VHier tag sv cs).

(** A line whose encoding with write fuel [fw] decodes back to it, whatever
    follows it in the stream. *)
Definition line_roundtrips (default : default_decoder) (fw : nat)
  (prefixes : list string) (l : line) : Prop :=
  match l with
  | LPair k v =>
      exists out,
        write_single fw "" prefixes (LPair k v) = (out, Returns)
        /\ forall fr tail,
            fuel_for (out ++ tail) <= fr ->
            read_single fr DECODERS default "" (out ++ tail)
            = YieldPair 0 k v tail
  | LNone => True
  | LTerm => False
  end.

(** [list(read(iter(stream), default=default))] with the default registry. *)
Definition decode_with (default : default_decoder) (s : stream) : run :=
  read (fuel_for s) DECODERS default "" s.

(** ** Vocabulary of the further properties *)

(** [line_roundtrips] for any [prefix] and [prefixes] of the encoder, the
    decoder running under the accumulated prefix. *)
Definition line_roundtrips_at (default : default_decoder) (fw : nat)
  (prefix : string) (prefixes : list string) (l : line) : Prop :=
  match l with
  | LPair k v =>
      exists out,
        write_single fw prefix prefixes (LPair k v) = (out, Returns)
        /\ forall fr tail,
            fuel_for (out ++ tail) <= fr ->
            read_single fr DECODERS default (joined prefixes) (out ++ tail)
            = YieldPair 0 k v tail
  | LNone => True
  | LTerm => False
  end.

(** Lines of a block of the model: skip sentinels and records of model
    values. *)
Definition model_lines (generic : bool) (ls : list line) : Prop :=
  ~ In LTerm ls /\ forall k v, In (LPair k v) ls -> model_value generic v.

(** What [read] yields with [decoders=None]: [None], a leaf pair, or a pair
    whose value is a [HierarchicalValue] holding the suspended children
    generator created with [child_prefix]. *)
Inductive raw_line : Type :=
| RawNone
| RawPair (k : string) (v : value)
| RawSuspended (k : string) (tag : string) (v : value) (child_prefix : string).

Inductive raw_read_run : Type :=
| RawDone (ys : list raw_line) (rest : stream)
| RawFail (ys : list raw_line) (e : exn)
| RawFuel.

Definition raw_yield_first (ys : list raw_line) (r : raw_read_run)
  : raw_read_run :=
  match r with
  | RawDone zs rest => RawDone (ys ++ zs) rest
  | RawFail zs e => RawFail (ys ++ zs) e
  | RawFuel => RawFuel
  end.

(** The loop body of [read] on one run of [read_single] with
    [decoders=None]. *)
Definition raw_of_single (r : raw_run) (continue : stream -> raw_read_run)
  : raw_read_run :=
  match r with
  | RawTerm n rest => RawDone (repeat RawNone n) rest
  | RawLeaf n k v rest =>
      raw_yield_first (repeat RawNone n ++ [RawPair k v]) (continue rest)
  | YieldSuspended n k tag v p rest =>
      raw_yield_first (repeat RawNone n ++ [RawSuspended k tag v p])
        (continue rest)
  | RawRaises n e => RawFail (repeat RawNone n) e
  end.

(** [read(stream, None, default, prefix)] pulled to its end by a consumer
    that does not iterate the suspended children in between, as
    [list(read(stream, None))] does. *)
Fixpoint read_no_decoders (fuel : nat) (prefix : string) (s : stream)
  : raw_read_run :=
  match fuel with
  | 0 => RawFuel
  | S fuel' =>
      raw_of_single (read_single_no_decoders prefix s)
                    (read_no_decoders fuel' prefix)
  end.

(** What such a [read] makes of one line of the stream. *)
Definition raw_of_line (prefix : string) (l : line) : raw_line :=
  match l with
  | LPair key v =>
      if is_leaf v then RawPair (removeprefix key prefix) v
      else
        let a := match annotation_of v with Some a => a | None => "" end in
        RawSuspended (removeprefix key prefix) (fst (split_gt a)) (scalar_of v)
          (prefix ++ snd (split_gt a))
  | _ => RawNone
  end.

(** ** The doctests of [read_single] *)

Example read_single_doctest_leaf :
  read_single 5 DECODERS raise_decoding_error ""
    [LPair "key" (VPair "annotation" (VBytes "value"))]
  = YieldPair 0 "key" (VPair "annotation" (VBytes "value")) [].
Proof. reflexivity. Qed.

Example read_single_doctest_unknown :
  read_single 9 DECODERS DefaultNone ""
    [LPair "key" (VPair "annotation>" (VBytes "value"));
     LPair "k1" (VBytes "v1"); LTerm]
  = YieldPair 0 "key"
      (VHier "annotation" (VBytes "value") [LPair "k1" (VBytes "v1")]) [].
Proof. reflexivity. Qed.

Example read_single_doctest_map :
  read_single 9 DECODERS raise_decoding_error ""
    [LPair "key" (VPair "Map>" (VBytes ""));
     LPair "k1" (VBytes "v1"); LPair "k2" (VBytes "v2"); LTerm]
  = YieldPair 0 "key"
      (VDict [(KStr "k1", VBytes "v1"); (KStr "k2", VBytes "v2")]) [].
Proof. reflexivity. Qed.

Example read_single_doctest_list :
  read_single 9 DECODERS raise_decoding_error ""
    [LPair "key" (VPair "L>" (VBytes ""));
     LPair "" (VBytes "v1"); LPair "" (VBytes "v2"); LTerm]
  = YieldPair 0 "key" (VList [VBytes "v1"; VBytes "v2"]) [].
Proof. reflexivity. Qed.

(** ** The doctests of [write_single] *)

Example write_single_doctest_leaf :
  write_single_default (LPair "key" (VBytes "value"))
  = ([LPair "key" (VBytes "value")], Returns).
Proof. reflexivity. Qed.

Example write_single_doctest_unknown :
  write_single_default
    (LPair "key" (VHier "annotation" (VBytes "value") [LPair "k1" (VBytes "v1")]))
  = ([LPair "key" (VPair "annotation>" (VBytes "value"));
      LPair "k1" (VBytes "v1"); LTerm], Returns).
Proof. reflexivity. Qed.

Example write_single_doctest_map :
  write_single_default
    (LPair "key" (VDict [(KStr "k1", VBytes "v1"); (KStr "k2", VBytes "v2")]))
  = ([LPair "key" (VPair "M>" (VBytes ""));
      LPair "k1" (VBytes "v1"); LPair "k2" (VBytes "v2"); LTerm], Returns).
Proof. reflexivity. Qed.

Example write_single_doctest_list :
  write_single_default (LPair "key" (VList [VBytes "v1"; VBytes "v2"]))
  = ([LPair "key" (VPair "L>" (VBytes ""));
      LPair "" (VBytes "v1"); LPair "" (VBytes "v2"); LTerm], Returns).
Proof. reflexivity. Qed.

Example write_single_doctest_pair_first :
  write_single_default (LPair "key" (VPair "annotation" (VBytes "value")))
  = ([LPair "key" (VPair "annotation>" (VBytes "value"))], Throws TypeError).
Proof. reflexivity. Qed.

(** ** Strings: [startswith], [removeprefix], [split] *)

Lemma startswith_app (p k : string) : startswith (p ++ k) p = true.
Proof.
  induction p as [|c p IH]; simpl; [reflexivity|].
  now rewrite Ascii.eqb_refl, IH.
Qed.

Lemma drop_app (p k : string) : drop (String.length p) (p ++ k) = k.
Proof. induction p as [|c p IH]; simpl; auto. Qed.

Lemma removeprefix_app (p k : string) : removeprefix (p ++ k) p = k.
Proof. unfold removeprefix. now rewrite startswith_app, drop_app. Qed.


Lemma startswith_empty (key : string) : startswith key "" = true.
Proof. reflexivity. Qed.

Lemma removeprefix_empty (key : string) : removeprefix key "" = key.
Proof. reflexivity. Qed.

Lemma app_inv_head_string (p a b : string) :
  (p ++ a)%string = (p ++ b)%string -> a = b.
Proof. induction p as [|c p IH]; simpl; intros H; [assumption|]. injection H; auto. Qed.

Lemma append_empty_r (s : string) : (s ++ "")%string = s.
Proof. induction s as [|c s IH]; simpl; congruence. Qed.

(** A tag without ['>'] followed by ['>'] and a suffix splits back. *)
Lemma split_gt_tag (tag suffix : string) :
  has_gt tag = false ->
  split_gt (tag ++ String gt suffix) = (tag, suffix).
Proof.
  induction tag as [|c t IH]; simpl; intros H.
  - reflexivity.
  - apply orb_false_iff in H as [Hc Ht]. rewrite Hc, (IH Ht). reflexivity.
Qed.

Lemma has_gt_tag (tag suffix : string) :
  has_gt (tag ++ String gt suffix) = true.
Proof.
  induction tag as [|c t IH]; simpl.
  - reflexivity.
  - rewrite IH. apply orb_true_r.
Qed.

(** ** One step of [read_single] on a record *)

Lemma read_single_skip fuel decoders default prefix s :
  read_single (S fuel) decoders default prefix (LNone :: s)
  = skip_more (read_single fuel decoders default prefix s).
Proof. reflexivity. Qed.

Lemma read_single_mismatch fuel decoders default prefix key v s :
  startswith key prefix = false ->
  read_single (S fuel) decoders default prefix (LPair key v :: s)
  = Raises 0 DecodingError.
Proof. intros H. simpl. now rewrite H. Qed.

Lemma read_single_leaf_step fuel decoders default prefix key v s :
  startswith key prefix = true ->
  is_leaf v = true ->
  read_single (S fuel) decoders default prefix (LPair key v :: s)
  = YieldPair 0 (removeprefix key prefix) v s.
Proof. intros H L. simpl. now rewrite H, L. Qed.

(** The nesting case: the children are read from the same stream under the
    extended prefix and handed to the handler chosen by the tag. *)
Lemma read_single_nested_step fuel decoders default prefix key v0 a s :
  startswith key prefix = true ->
  annotation_of v0 = Some a ->
  has_gt a = true ->
  read_single (S fuel) decoders default prefix (LPair key v0 :: s)
  = match
      match find_handler (fst (split_gt a)) decoders with
      | Some decode =>
          apply_decoder decode (scalar_of v0)
            (read fuel decoders default (prefix ++ snd (split_gt a)) s)
      | None =>
          apply_default default (fst (split_gt a)) (scalar_of v0)
            (read fuel decoders default (prefix ++ snd (split_gt a)) s)
      end
    with
    | Value v' rest => YieldPair 0 (removeprefix key prefix) v' rest
    | Raise e => Raises 0 e
    | HandlerFuel => SingleFuel
    end.
Proof.
  intros H A G. simpl. rewrite H. unfold is_leaf. rewrite A, G. simpl.
  destruct (split_gt a) as [tag suffix]. reflexivity.
Qed.

(** ** Handlers hand back the position their children stopped at *)

Lemma consume_value walk c v rest :
  consume walk c = Value v rest -> exists ys, c = Done ys rest /\ walk ys = inr v.
Proof.
  destruct c as [ys r|ys e|]; simpl; try discriminate.
  - destruct (walk ys) eqn:W; intros H; inversion H; subst. eauto.
  - destruct (walk ys); discriminate.
Qed.

Lemma materialise_value f c v rest :
  materialise f c = Value v rest -> exists ys, c = Done ys rest /\ f ys = inr v.
Proof.
  destruct c as [ys r|ys e|]; simpl; try discriminate.
  destruct (f ys) eqn:W; intros H; inversion H; subst. eauto.
Qed.

Lemma apply_decoder_value d v c v' rest :
  apply_decoder d v c = Value v' rest -> exists ys, c = Done ys rest.
Proof.
  destruct d; simpl; unfold decode_map, decode_list;
    try (destruct (truthy v); [discriminate|]); intros H.
  - apply consume_value in H as (ys & -> & _); eauto.
  - apply consume_value in H as (ys & -> & _); eauto.
  - apply materialise_value in H as (ys & -> & _); eauto.
Qed.

Lemma apply_default_value d a v c v' rest :
  apply_default d a v c = Value v' rest -> exists ys, c = Done ys rest.
Proof.
  destruct d; simpl; try discriminate; intros H.
  - apply consume_value in H as (ys & -> & _); eauto.
  - apply materialise_value in H as (ys & -> & _); eauto.
Qed.

(** A handler that answers without its children answers the same whatever
    they are. *)
Lemma apply_decoder_no_children d v e :
  apply_decoder d v OutOfFuel = Raise e ->
  forall c, apply_decoder d v c = Raise e.
Proof.
  destruct d; simpl; unfold decode_map, decode_list;
    try (destruct (truthy v); [auto|]); simpl; discriminate.
Qed.

Lemma apply_default_no_children d a v e :
  apply_default d a v OutOfFuel = Raise e ->
  forall c, apply_default d a v c = Raise e.
Proof. destruct d; simpl; auto; discriminate. Qed.

Lemma apply_decoder_not_value_nofuel d v v' rest :
  apply_decoder d v OutOfFuel <> Value v' rest.
Proof. intros H. apply apply_decoder_value in H as (ys & H). discriminate. Qed.

Lemma apply_default_not_value_nofuel d a v v' rest :
  apply_default d a v OutOfFuel <> Value v' rest.
Proof. intros H. apply apply_default_value in H as (ys & H). discriminate. Qed.

(** ** What a run of the decoder has pulled from the stream *)

Lemma yield_first_done ys r zs rest :
  yield_first ys r = Done zs rest ->
  exists ws, r = Done ws rest /\ zs = ys ++ ws.
Proof. destruct r; simpl; intros H; inversion H; subst; eauto. Qed.

Lemma single_pulled_skip s r :
  single_pulled s r -> single_pulled (LNone :: s) (skip_more r).
Proof.
  destruct r; simpl; auto.
  - intros ->. reflexivity.
  - intros (key & v0 & body & -> & B). exists key, v0, body. auto.
Qed.

Lemma read_pulled fuel decoders default :
  (forall prefix s,
      single_pulled s (read_single fuel decoders default prefix s))
  /\ (forall prefix s ys rest,
         read fuel decoders default prefix s = Done ys rest ->
         exists pre, s = pre ++ LTerm :: rest).
Proof.
  induction fuel as [|fuel [IHs IHr]]; split; simpl; auto; try discriminate.
  - intros prefix [|[| |key v0] s']; simpl; auto.
    + apply single_pulled_skip, IHs.
    + destruct (startswith key prefix); simpl; auto.
      destruct (is_leaf v0).
      { simpl. exists key, v0, []. auto. }
      destruct (split_gt _) as [tag suffix].
      destruct (find_handler tag decoders) as [d|].
      * destruct (apply_decoder d _ _) eqn:E; simpl; auto.
        apply apply_decoder_value in E as (ys & E).
        apply IHr in E as (pre & ->).
        exists key, v0, (pre ++ [LTerm]). rewrite <- app_assoc. simpl. eauto.
      * destruct (apply_default default _ _ _) eqn:E; simpl; auto.
        apply apply_default_value in E as (ys & E).
        apply IHr in E as (pre & ->).
        exists key, v0, (pre ++ [LTerm]). rewrite <- app_assoc. simpl. eauto.
  - intros prefix s ys rest. specialize (IHs prefix s).
    destruct (read_single fuel decoders default prefix s) as [n r|n k v r|n e|];
      simpl in *; try discriminate.
    + intros H; inversion H; subst. eauto.
    + intros H. apply yield_first_done in H as (ws & H & _).
      apply IHr in H as (pre & ->).
      destruct IHs as (key & v0 & body & -> & _).
      exists (repeat LNone n ++ LPair key v0 :: body ++ pre).
      rewrite <- !app_assoc. simpl. now rewrite <- app_assoc.
Qed.

(** ** Fuel: more never changes a result, [fuel_for] is enough *)

Lemma apply_decoder_fuel d v c :
  apply_decoder d v c = HandlerFuel -> c = OutOfFuel.
Proof.
  destruct d; simpl; unfold decode_map, decode_list, consume, materialise;
    try (destruct (truthy v); [discriminate|]);
    destruct c as [ys r|ys e|]; auto;
    repeat match goal with |- context [match ?x with _ => _ end] => destruct x end;
    discriminate.
Qed.

Lemma apply_default_fuel d a v c :
  apply_default d a v c = HandlerFuel -> c = OutOfFuel.
Proof.
  destruct d; simpl; unfold HierarchicalValueTuple, consume, materialise;
    try discriminate;
    destruct c as [ys r|ys e|]; auto;
    repeat match goal with |- context [match ?x with _ => _ end] => destruct x end;
    discriminate.
Qed.

Lemma skip_more_fuel r : skip_more r <> SingleFuel -> r <> SingleFuel.
Proof. destruct r; simpl; congruence. Qed.

Lemma yield_first_fuel ys r : yield_first ys r <> OutOfFuel -> r <> OutOfFuel.
Proof. destruct r; simpl; congruence. Qed.

Lemma read_fuel_mono fuel decoders default :
  (forall prefix s fuel',
      fuel <= fuel' ->
      read_single fuel decoders default prefix s <> SingleFuel ->
      read_single fuel' decoders default prefix s
      = read_single fuel decoders default prefix s)
  /\ (forall prefix s fuel',
         fuel <= fuel' ->
         read fuel decoders default prefix s <> OutOfFuel ->
         read fuel' decoders default prefix s
         = read fuel decoders default prefix s).
Proof.
  induction fuel as [|fuel [IHs IHr]]; split; intros prefix s fuel' L;
    try (simpl; congruence);
    (destruct fuel' as [|fuel']; [lia|]); apply le_S_n in L.
  - destruct s as [|[| |key v0] s']; simpl; auto.
    + intros H. apply skip_more_fuel in H. now rewrite (IHs _ _ _ L H).
    + destruct (startswith key prefix); simpl; auto.
      destruct (is_leaf v0); auto.
      destruct (split_gt _) as [tag suffix].
      destruct (read fuel decoders default (prefix ++ suffix) s') eqn:C.
      * rewrite (IHr _ _ _ L) by congruence. now rewrite C.
      * rewrite (IHr _ _ _ L) by congruence. now rewrite C.
      * destruct (find_handler tag decoders) as [d|].
        -- destruct (apply_decoder d (scalar_of v0) OutOfFuel) eqn:E.
           ++ now apply apply_decoder_not_value_nofuel in E.
           ++ intros _. now rewrite (apply_decoder_no_children _ _ _ E).
           ++ congruence.
        -- destruct (apply_default default tag (scalar_of v0) OutOfFuel) eqn:E.
           ++ now apply apply_default_not_value_nofuel in E.
           ++ intros _. now rewrite (apply_default_no_children _ _ _ _ E).
           ++ congruence.
  - simpl.
    destruct (read_single fuel decoders default prefix s) eqn:R;
      try (intros _; rewrite (IHs _ _ _ L) by congruence; now rewrite R).
    + intros H. simpl in H. apply yield_first_fuel in H.
      rewrite (IHs _ _ _ L) by congruence. rewrite R. simpl.
      now rewrite (IHr _ _ _ L H).
    + simpl. congruence.
Qed.

Lemma single_pulled_shorter s n k v rest :
  single_pulled s (YieldPair n k v rest) -> length rest < length s.
Proof.
  intros (key & v0 & body & -> & _).
  rewrite length_app. simpl. rewrite length_app. lia.
Qed.

Lemma read_fuel_enough fuel decoders default :
  (forall prefix s,
      2 * length s + 1 <= fuel ->
      read_single fuel decoders default prefix s <> SingleFuel)
  /\ (forall prefix s,
         2 * length s + 2 <= fuel ->
         read fuel decoders default prefix s <> OutOfFuel).
Proof.
  induction fuel as [|fuel [IHs IHr]]; split; intros prefix s L; try lia.
  - destruct s as [|[| |key v0] s']; simpl in *; try discriminate.
    + intros H. apply (IHs prefix s'); [lia|].
      destruct (read_single fuel decoders default prefix s');
        simpl in H; congruence.
    + destruct (startswith key prefix); simpl; try discriminate.
      destruct (is_leaf v0); try discriminate.
      destruct (split_gt _) as [tag suffix].
      assert (C : read fuel decoders default (prefix ++ suffix) s' <> OutOfFuel)
        by (apply IHr; lia).
      destruct (find_handler tag decoders) as [d|].
      * destruct (apply_decoder d _ _) eqn:E; try discriminate.
        now apply apply_decoder_fuel in E.
      * destruct (apply_default default _ _ _) eqn:E; try discriminate.
        now apply apply_default_fuel in E.
  - simpl.
    assert (R : read_single fuel decoders default prefix s <> SingleFuel)
      by (apply IHs; lia).
    pose proof (proj1 (read_pulled fuel decoders default) prefix s) as P.
    destruct (read_single fuel decoders default prefix s) as [n r|n k v r|n e|];
      simpl; try discriminate; try congruence.
    apply single_pulled_shorter in P.
    assert (C : read fuel decoders default prefix r <> OutOfFuel)
      by (apply IHr; lia).
    destruct (read fuel decoders default prefix r); simpl; congruence.
Qed.

(** With [fuel_for] (or more) the run of [read] is the same whatever the
    fuel. *)
Lemma read_fuel_for fuel decoders default prefix s :
  fuel_for s <= fuel ->
  read fuel decoders default prefix s
  = read (fuel_for s) decoders default prefix s.
Proof.
  intros L. apply (proj2 (read_fuel_mono _ decoders default)); auto.
  apply (proj2 (read_fuel_enough _ decoders default)). unfold fuel_for. lia.
Qed.

Lemma read_single_fuel_for fuel decoders default prefix s :
  fuel_for s <= fuel ->
  read_single fuel decoders default prefix s
  = read_single (fuel_for s) decoders default prefix s.
Proof.
  intros L. apply (proj1 (read_fuel_mono _ decoders default)); auto.
  apply (proj1 (read_fuel_enough _ decoders default)). unfold fuel_for. lia.
Qed.

(** ** Prefix check and terminal leaves *)

Lemma read_single_no_decoders_leaf_step prefix key v s :
  startswith key prefix = true ->
  is_leaf v = true ->
  read_single_no_decoders prefix (LPair key v :: s)
  = RawLeaf 0 (removeprefix key prefix) v s.
Proof. intros H L. simpl. now rewrite H, L. Qed.




(** C6. A record whose payload has no annotation, or an annotation without
    ['>'], is a terminal leaf: [read_single] yields the stripped key with the
    payload unchanged and returns, the stream being left right after that
    record; so does the doctest [("key", ("anno", b"value"))]. *)
Theorem read_single_terminal_leaf fuel decoders default prefix k v s :
  (annotation_of v = None
   \/ exists a, annotation_of v = Some a /\ has_gt a = false) ->
  read_single (S fuel) decoders default prefix (LPair (prefix ++ k) v :: s)
  = YieldPair 0 k v s
  /\ read_single_no_decoders prefix (LPair (prefix ++ k) v :: s)
     = RawLeaf 0 k v s
  /\ read_single 1 DECODERS raise_decoding_error ""
       [LPair "key" (VPair "anno" (VBytes "value"))]
     = YieldPair 0 "key" (VPair "anno" (VBytes "value")) [].
Proof.
  intros H.
  assert (L : is_leaf v = true).
  { unfold is_leaf. destruct H as [->|(a & -> & ->)]; reflexivity. }
  repeat split.
  - rewrite read_single_leaf_step by (auto using startswith_app).
    now rewrite removeprefix_app.
  - rewrite read_single_no_decoders_leaf_step by (auto using startswith_app).
    now rewrite removeprefix_app.
Qed.

Lemma read_single_terminal_leaf_witness :
  read_single 3 DECODERS raise_decoding_error "p/"
    [LPair "p/key" (VPair "anno" (VBytes "value")); LPair "p/next" (VBytes "x")]
  = YieldPair 0 "key" (VPair "anno" (VBytes "value"))
      [LPair "p/next" (VBytes "x")].
Proof.
  apply (read_single_terminal_leaf 2 DECODERS raise_decoding_error "p/" "key"
           (VPair "anno" (VBytes "value")) [LPair "p/next" (VBytes "x")]).
  right. exists "anno". split; reflexivity.
Defined.

(** After the leaf [read] pulls again: on the one-record stream of the
    scenario the pair is yielded and the next pull meets the end of the
    stream. *)
Example decode_leaf_then_end_of_stream :
  decode [LPair "key" (VPair "anno" (VBytes "value"))]
  = Fail [LPair "key" (VPair "anno" (VBytes "value"))] EOFError.
Proof. reflexivity. Qed.

(** ** Unregistered tags and the [default] argument *)

(** With the [default] argument left at its default,
    [raise_decoding_error], the first doctest stream with an unregistered
    tag makes [read_single] raise instead of yielding a generic value. *)
Lemma unregistered_tag_default_argument_raises :
  read_single 9 DECODERS raise_decoding_error ""
    [LPair "key" (VPair "annotation>" (VBytes "value"));
     LPair "k1" (VBytes "v1"); LTerm]
  = Raises 0 DecodingError
  /\ ~ (exists n k v rest,
           read_single 9 DECODERS raise_decoding_error ""
             [LPair "key" (VPair "annotation>" (VBytes "value"));
              LPair "k1" (VBytes "v1"); LTerm]
           = YieldPair n k v rest).
Proof.
  split; [reflexivity|].
  intros (n & k & v & rest & H). vm_compute in H. discriminate.
Qed.

(** C2 (amended). For a tag that matches no alias-set of the registry:
    with [default] left at [raise_decoding_error], [read_single] raises
    [DecodingError]; with [default=None] it yields the generic hierarchical
    value made of the tag, the scalar and the materialised children; with a
    factory it yields what the factory makes of them. *)
Theorem read_single_unregistered_tag fuel decoders prefix k tag suffix v s :
  has_gt tag = false ->
  find_handler tag decoders = None ->
  let header := LPair (prefix ++ k) (VPair (tag ++ String gt suffix) v) in
  read_single (S fuel) decoders raise_decoding_error prefix (header :: s)
  = Raises 0 DecodingError
  /\ (forall ys rest,
         read fuel decoders DefaultNone (prefix ++ suffix) s = Done ys rest ->
         read_single (S fuel) decoders DefaultNone prefix (header :: s)
         = YieldPair 0 k (VHier tag v ys) rest)
  /\ (forall f ys rest v',
         read fuel decoders (DefaultFactory f) (prefix ++ suffix) s
         = Done ys rest ->
         f tag v ys = inr v' ->
         read_single (S fuel) decoders (DefaultFactory f) prefix (header :: s)
         = YieldPair 0 k v' rest).
Proof.
  intros G F header. subst header.
  repeat split; intros;
    rewrite (read_single_nested_step _ _ _ _ _ _ (tag ++ String gt suffix))
      by (auto using startswith_app, has_gt_tag);
    rewrite split_gt_tag by assumption; simpl; rewrite F; simpl;
    rewrite ?removeprefix_app; try reflexivity.
  - rewrite H. reflexivity.
  - rewrite H. simpl. rewrite H0. reflexivity.
Qed.

Lemma read_single_unregistered_tag_witness :
  read_single 9 DECODERS DefaultNone ""
    [LPair "key" (VPair "annotation>" (VBytes "value"));
     LPair "k1" (VBytes "v1"); LTerm]
  = YieldPair 0 "key"
      (VHier "annotation" (VBytes "value") [LPair "k1" (VBytes "v1")]) [].
Proof.
  apply (proj1 (proj2 (read_single_unregistered_tag 8 DECODERS "" "key"
                         "annotation" "" (VBytes "value")
                         [LPair "k1" (VBytes "v1"); LTerm]
                         eq_refl eq_refl))).
  reflexivity.
Defined.

(** ** Children are drained before the pair is yielded *)

(** With [decoders=None] the pair is yielded while the whole child block,
    terminal marker included, is still in the stream. *)
Lemma no_decoders_yields_before_children_are_pulled :
  read_single_no_decoders ""
    [LPair "key" (VPair "foo>" (VBytes "value"));
     LPair "k1" (VBytes "v1"); LTerm; LPair "sibling" (VBytes "x"); LTerm]
  = YieldSuspended 0 "key" "foo" (VBytes "value") ""
      [LPair "k1" (VBytes "v1"); LTerm; LPair "sibling" (VBytes "x"); LTerm]
  /\ read_single_no_decoders ""
       [LPair "k1" (VBytes "v1"); LTerm; LPair "sibling" (VBytes "x"); LTerm]
     = RawLeaf 0 "k1" (VBytes "v1") [LTerm; LPair "sibling" (VBytes "x"); LTerm].
Proof. split; reflexivity. Qed.

(** A value handed back by the handler of a nested block closes the block:
    the children generator returned, right after a terminal marker. *)
Lemma handler_value_closes_block fuel decoders default prefix tag sv s v rest :
  match find_handler tag decoders with
  | Some decode =>
      apply_decoder decode sv (read fuel decoders default prefix s)
  | None => apply_default default tag sv (read fuel decoders default prefix s)
  end = Value v rest ->
  exists ys block,
    read fuel decoders default prefix s = Done ys rest
    /\ s = block ++ LTerm :: rest.
Proof.
  intros E.
  assert (exists ys, read fuel decoders default prefix s = Done ys rest)
    as (ys & R).
  { destruct (find_handler tag decoders) as [d|].
    - now apply apply_decoder_value in E.
    - now apply apply_default_value in E. }
  exists ys. destruct (proj2 (read_pulled _ _ _) _ _ _ _ R) as (block & B).
  eauto.
Qed.

(** C4 (amended). With a decoder registry, whenever [read_single] yields the
    pair of an annotated nested block, the children generator of that block
    has run to its return: the stream the pair is yielded at is the one left
    right after the terminal marker that closed the block. *)
Theorem read_single_drains_children fuel decoders default prefix key v0 a s
  n k v rest :
  annotation_of v0 = Some a ->
  has_gt a = true ->
  read_single (S fuel) decoders default prefix (LPair key v0 :: s)
  = YieldPair n k v rest ->
  exists ys block,
    read fuel decoders default (prefix ++ snd (split_gt a)) s = Done ys rest
    /\ s = block ++ LTerm :: rest.
Proof.
  intros A G R.
  assert (H : startswith key prefix = true).
  { simpl in R. destruct (startswith key prefix); [reflexivity|discriminate]. }
  rewrite (read_single_nested_step _ _ _ _ _ _ a) in R by assumption.
  destruct (match find_handler _ decoders with Some _ => _ | None => _ end)
    as [v' rest'| |] eqn:E; inversion R; subst.
  now apply handler_value_closes_block in E.
Qed.

Lemma read_single_drains_children_witness :
  exists ys block,
    read 8 DECODERS DefaultNone ("" ++ snd (split_gt "foo>"))
      [LPair "k1" (VBytes "v1"); LTerm; LPair "sibling" (VBytes "x"); LTerm]
    = Done ys [LPair "sibling" (VBytes "x"); LTerm]
    /\ [LPair "k1" (VBytes "v1"); LTerm; LPair "sibling" (VBytes "x"); LTerm]
       = block ++ LTerm :: [LPair "sibling" (VBytes "x"); LTerm].
Proof.
  apply (read_single_drains_children 8 DECODERS DefaultNone "" "key"
           (VPair "foo>" (VBytes "value")) "foo>" _ 0 "key"
           (VHier "foo" (VBytes "value") [LPair "k1" (VBytes "v1")])
           [LPair "sibling" (VBytes "x"); LTerm]);
    reflexivity.
Defined.

(** ** [dict(stream)]: insertion order and duplicate keys *)

Lemma dkey_eqb_eq a b : dkey_eqb a b = true <-> a = b.
Proof.
  destruct a, b; simpl; split; intros H; try discriminate;
    try (apply String.eqb_eq in H; congruence);
    try (apply Nat.eqb_eq in H; congruence);
    inversion H; subst;
    (apply String.eqb_refl || apply Nat.eqb_refl).
Qed.

Lemma dkey_eqb_refl a : dkey_eqb a a = true.
Proof. now apply dkey_eqb_eq. Qed.

Lemma dkey_eqb_neq a b : a <> b -> dkey_eqb a b = false.
Proof.
  intros N. destruct (dkey_eqb a b) eqn:E; [|reflexivity].
  now apply dkey_eqb_eq in E.
Qed.

Lemma dict_get_set_same {A} (d : list (dkey * A)) k v :
  dict_get (dict_set d k v) k = Some v.
Proof.
  induction d as [|[k' v'] d IH]; simpl.
  - now rewrite dkey_eqb_refl.
  - destruct (dkey_eqb k' k) eqn:E; simpl; rewrite E; auto.
Qed.

Lemma dict_get_set_other {A} (d : list (dkey * A)) k v k0 :
  k <> k0 -> dict_get (dict_set d k v) k0 = dict_get d k0.
Proof.
  intros N. induction d as [|[k' v'] d IH]; simpl.
  - now rewrite dkey_eqb_neq.
  - destruct (dkey_eqb k' k) eqn:E; simpl.
    + apply dkey_eqb_eq in E; subst k'. now rewrite dkey_eqb_neq.
    + now rewrite IH.
Qed.

Lemma dict_set_fresh {A} (d : list (dkey * A)) k v :
  ~ In k (map fst d) -> dict_set d k v = d ++ [(k, v)].
Proof.
  induction d as [|[k' v'] d IH]; simpl; intros N; [reflexivity|].
  rewrite dkey_eqb_neq by tauto. f_equal. apply IH. tauto.
Qed.

Lemma dict_update_pairs d kvs :
  dict_update d (lines_of_pairs kvs) = inr (dict_of_pairs d kvs).
Proof. revert d. induction kvs as [|[k v] kvs IH]; intros d; simpl; auto. Qed.

Lemma dict_of_pairs_distinct d kvs :
  NoDup (map fst kvs) ->
  (forall k, In k (map fst kvs) -> ~ In (KStr k) (map fst d)) ->
  dict_of_pairs d kvs = d ++ entries_of_pairs kvs.
Proof.
  revert d. induction kvs as [|[k v] kvs IH]; intros d N F; simpl.
  - now rewrite app_nil_r.
  - inversion N as [|? ? Nk N']; subst.
    rewrite dict_set_fresh by (apply F; simpl; auto).
    rewrite IH; auto.
    + now rewrite <- app_assoc.
    + intros k0 I. rewrite map_app, in_app_iff. simpl.
      intros [J|[J|[]]].
      * revert J. apply F. simpl; auto.
      * inversion J; subst. contradiction.
Qed.

Lemma dict_of_pairs_get_absent d kvs k :
  ~ In k (map fst kvs) ->
  dict_get (dict_of_pairs d kvs) (KStr k) = dict_get d (KStr k).
Proof.
  revert d. induction kvs as [|[k' v'] kvs IH]; intros d N; simpl in *; auto.
  rewrite IH by tauto. apply dict_get_set_other. intros E; inversion E. tauto.
Qed.

Lemma dict_of_pairs_last_wins d before k v after :
  ~ In k (map fst after) ->
  dict_get (dict_of_pairs d (before ++ (k, v) :: after)) (KStr k) = Some v.
Proof.
  intros N. unfold dict_of_pairs. rewrite fold_left_app. simpl.
  fold (dict_of_pairs d before).
  fold (dict_of_pairs (dict_set (dict_of_pairs d before) (KStr k) v) after).
  rewrite dict_of_pairs_get_absent by assumption.
  apply dict_get_set_same.
Qed.

(** ** Built-in composite blocks *)

Lemma map_alias tag :
  mem_str tag ["Map"; "M"] = true ->
  has_gt tag = false /\ find_handler tag DECODERS = Some DecodeMap.
Proof.
  simpl. rewrite orb_false_r. intros H.
  apply orb_true_iff in H as [H|H]; apply String.eqb_eq in H; subst;
    split; reflexivity.
Qed.

Lemma list_alias tag :
  mem_str tag ["List"; "L"] = true ->
  has_gt tag = false /\ find_handler tag DECODERS = Some DecodeList.
Proof.
  simpl. rewrite orb_false_r. intros H.
  apply orb_true_iff in H as [H|H]; apply String.eqb_eq in H; subst;
    split; reflexivity.
Qed.

(** The step of [read_single] on the header of a block. *)
Lemma read_single_header fuel decoders default prefix k tag suffix v s :
  has_gt tag = false ->
  read_single (S fuel) decoders default prefix
    (LPair (prefix ++ k) (VPair (tag ++ String gt suffix) v) :: s)
  = match
      match find_handler tag decoders with
      | Some decode =>
          apply_decoder decode v
            (read fuel decoders default (prefix ++ suffix) s)
      | None =>
          apply_default default tag v
            (read fuel decoders default (prefix ++ suffix) s)
      end
    with
    | Value v' rest => YieldPair 0 k v' rest
    | Raise e => Raises 0 e
    | HandlerFuel => SingleFuel
    end.
Proof.
  intros G.
  rewrite (read_single_nested_step _ _ _ _ _ _ (tag ++ String gt suffix))
    by (auto using startswith_app, has_gt_tag).
  rewrite split_gt_tag by assumption. simpl. now rewrite removeprefix_app.
Qed.

(** C7. A [Map] block decodes to the dictionary of its decoded children:
    the entries are the children in their order when the keys are distinct,
    and when a key occurs several times its last value is the one kept; the
    doctest stream gives [{"k1": b"v1", "k2": b"v2"}]. *)
Theorem read_single_map_block fuel default prefix key tag suffix s kvs rest :
  mem_str tag ["Map"; "M"] = true ->
  read fuel DECODERS default (prefix ++ suffix) s
  = Done (lines_of_pairs kvs) rest ->
  exists d,
    read_single (S fuel) DECODERS default prefix
      (LPair (prefix ++ key) (VPair (tag ++ String gt suffix) (VBytes "")) :: s)
    = YieldPair 0 key (VDict d) rest
    /\ (NoDup (map fst kvs) -> d = entries_of_pairs kvs)
    /\ (forall before k v after,
           kvs = before ++ (k, v) :: after ->
           ~ In k (map fst after) ->
           dict_get d (KStr k) = Some v)
    /\ read_single 9 DECODERS raise_decoding_error ""
         [LPair "key" (VPair "Map>" (VBytes ""));
          LPair "k1" (VBytes "v1"); LPair "k2" (VBytes "v2"); LTerm]
       = YieldPair 0 "key"
           (VDict [(KStr "k1", VBytes "v1"); (KStr "k2", VBytes "v2")]) [].
Proof.
  intros M R. destruct (map_alias _ M) as [G F].
  exists (dict_of_pairs [] kvs). repeat split.
  - rewrite read_single_header by assumption. rewrite F, R. simpl.
    unfold decode_map. simpl. now rewrite dict_update_pairs.
  - intros N. now rewrite dict_of_pairs_distinct.
  - intros before k v after -> N. now apply dict_of_pairs_last_wins.
Qed.

Lemma read_single_map_block_witness :
  exists d,
    read_single 9 DECODERS raise_decoding_error ""
      [LPair "key" (VPair "M>" (VBytes ""));
       LPair "k1" (VBytes "v1"); LPair "k1" (VBytes "v2"); LTerm]
    = YieldPair 0 "key" (VDict d) []
    /\ dict_get d (KStr "k1") = Some (VBytes "v2").
Proof.
  destruct (read_single_map_block 8 raise_decoding_error "" "key" "M" ""
              [LPair "k1" (VBytes "v1"); LPair "k1" (VBytes "v2"); LTerm]
              [("k1", VBytes "v1"); ("k1", VBytes "v2")] []
              eq_refl eq_refl) as (d & R & _ & L & _).
  exists d. split; [exact R|].
  apply (L [("k1", VBytes "v1")] "k1" (VBytes "v2") [] eq_refl).
  simpl. tauto.
Defined.

(** A skip sentinel inside a [List] block is met by the unpacking of
    [decode_list] before the child with the non-empty key is. *)
Lemma list_block_sentinel_before_keyed_child :
  read_single 9 DECODERS raise_decoding_error ""
    [LPair "key" (VPair "L>" (VBytes ""));
     LNone; LPair "x" (VBytes "v"); LTerm]
  = Raises 0 TypeError
  /\ read_single 9 DECODERS raise_decoding_error ""
       [LPair "key" (VPair "L>" (VBytes ""));
        LNone; LPair "x" (VBytes "v"); LTerm]
     <> Raises 0 DecodingError.
Proof. split; [reflexivity|discriminate]. Qed.

Lemma list_collect_keyed before k x after :
  Forall is_record before ->
  k <> "" ->
  list_collect (before ++ LPair k x :: after) = inl DecodingError.
Proof.
  intros B K. induction B as [|l before (k' & v' & ->) B IH]; simpl.
  - unfold ensure_empty_key.
    destruct (String.eqb k "") eqn:E; [apply String.eqb_eq in E; tauto|].
    reflexivity.
  - unfold ensure_empty_key at 1.
    destruct (String.eqb k' ""); simpl; [|reflexivity]. now rewrite IH.
Qed.

Lemma read_single_record_raises fuel decoders default prefix key v0 s d :
  (startswith key prefix = true ->
   forall a, annotation_of v0 = Some a -> has_gt a = true ->
   find_handler (fst (split_gt a)) decoders = Some d
   /\ apply_decoder d (scalar_of v0)
        (read fuel decoders default (prefix ++ snd (split_gt a)) s)
      = Raise DecodingError) ->
  is_leaf v0 = false ->
  read_single (S fuel) decoders default prefix (LPair key v0 :: s)
  = Raises 0 DecodingError.
Proof.
  intros H L. destruct (startswith key prefix) eqn:P.
  - unfold is_leaf in L. destruct (annotation_of v0) as [a|] eqn:A;
      [|discriminate].
    apply negb_false_iff in L.
    destruct (H eq_refl a eq_refl L) as [F E].
    rewrite (read_single_nested_step _ _ _ _ _ _ a) by assumption.
    now rewrite F, E.
  - now apply read_single_mismatch.
Qed.

Lemma builtin_alias tag :
  mem_str tag ["Map"; "M"; "List"; "L"] = true ->
  has_gt tag = false
  /\ exists d, find_handler tag DECODERS = Some d
               /\ forall v c, truthy v = true ->
                              apply_decoder d v c = Raise DecodingError.
Proof.
  simpl. rewrite orb_false_r. intros H.
  repeat (apply orb_true_iff in H as [H|H]);
    apply String.eqb_eq in H; subst; (split; [reflexivity|]);
    eexists; (split; [reflexivity|]); intros v c T; simpl;
    unfold decode_map, decode_list; now rewrite T.
Qed.

(** C8 (amended). A [Map] or [List] header whose scalar part is non-empty
    makes [read_single] raise [DecodingError]; so does a [List] block one of
    whose children has a non-empty key, when the children yielded before it
    are records (no skip sentinel precedes it in the block). *)
Theorem read_single_malformed_composite fuel default prefix key tag suffix v s :
  let header := LPair key (VPair (tag ++ String gt suffix) v) in
  (mem_str tag ["Map"; "M"; "List"; "L"] = true ->
   truthy v = true ->
   read_single (S fuel) DECODERS default prefix (header :: s)
   = Raises 0 DecodingError)
  /\ (mem_str tag ["List"; "L"] = true ->
      forall before k x after,
        run_yields (read fuel DECODERS default (prefix ++ suffix) s)
        = Some (before ++ LPair k x :: after) ->
        Forall is_record before ->
        k <> "" ->
        read_single (S fuel) DECODERS default prefix (header :: s)
        = Raises 0 DecodingError).
Proof.
  intros header; subst header. split.
  - intros M T. destruct (builtin_alias _ M) as (G & d & F & E).
    apply (read_single_record_raises _ _ _ _ _ _ _ d).
    + intros _ a A _. inversion A; subst a.
      rewrite split_gt_tag by assumption. simpl. auto.
    + unfold is_leaf. simpl. now rewrite has_gt_tag.
  - intros M before k x after Y B K. destruct (list_alias _ M) as (G & F).
    apply (read_single_record_raises _ _ _ _ _ _ _ DecodeList).
    + intros _ a A _. inversion A; subst a.
      rewrite split_gt_tag by assumption. simpl. split; [assumption|].
      unfold decode_list. destruct (truthy v); [reflexivity|].
      destruct (read fuel DECODERS default (prefix ++ suffix) s);
        simpl in Y; inversion Y; subst; simpl;
        now rewrite list_collect_keyed.
    + unfold is_leaf. simpl. now rewrite has_gt_tag.
Qed.

Lemma read_single_malformed_composite_witness :
  read_single 9 DECODERS raise_decoding_error ""
    [LPair "key" (VPair "Map>" (VBytes "x")); LTerm]
  = Raises 0 DecodingError
  /\ read_single 9 DECODERS raise_decoding_error ""
       [LPair "key" (VPair "L>" (VBytes ""));
        LPair "" (VBytes "v1"); LPair "x" (VBytes "v2"); LTerm]
     = Raises 0 DecodingError.
Proof.
  split.
  - apply (proj1 (read_single_malformed_composite 8 raise_decoding_error ""
                    "key" "Map" "" (VBytes "x") [LTerm]));
      reflexivity.
  - apply (proj2 (read_single_malformed_composite 8 raise_decoding_error ""
                    "key" "L" "" (VBytes "")
                    [LPair "" (VBytes "v1"); LPair "x" (VBytes "v2"); LTerm])
             eq_refl [LPair "" (VBytes "v1")] "x" (VBytes "v2") []).
    + reflexivity.
    + repeat constructor. exists "", (VBytes "v1"). reflexivity.
    + discriminate.
Defined.

(** ** Exception classes *)




(** The same classes observed through [write_single] and [read_single]. *)
Example write_single_non_str_key :
  write_single_default (LPair "key" (VDict [(KInt 1, VBytes "v")]))
  = ([LPair "key" (VPair "M>" (VBytes ""))], Throws ValueError).
Proof. reflexivity. Qed.

Example write_single_map_scalar_not_empty :
  write_single_default (LPair "key" (VHier "Map" (VBytes "x") []))
  = ([LPair "key" (VPair "Map>" (VBytes "x"))], Throws DecodingError).
Proof. reflexivity. Qed.

(** ** The two-field tuple on encode *)

Lemma write_single_pair_unregistered fuel prefix prefixes key a v :
  find_handler a ENCODERS = None ->
  write_single (S fuel) prefix prefixes (LPair key (VPair a v))
  = ([LPair (joined prefixes ++ key) (VPair (a ++ ">" ++ prefix) v)],
     Throws TypeError).
Proof. intros F. cbn -[find_handler ENCODERS]. rewrite F. reflexivity. Qed.

(** C3 (what the code does). For a two-element tuple [(annotation, scalar)]
    with an unregistered annotation, [write_single] yields the header with
    the nesting annotation [annotation>prefix] and then raises [TypeError]
    when [write] iterates the absent children; the doctest input
    [('key', ('annotation', b'value'))] does so. *)
Theorem write_single_two_field_tuple_raises :
  (forall fuel prefix prefixes key a v,
      mem_str a ["Map"; "M"; "List"; "L"] = false ->
      write_single (S fuel) prefix prefixes (LPair key (VPair a v))
      = ([LPair (joined prefixes ++ key) (VPair (a ++ ">" ++ prefix) v)],
         Throws TypeError))
  /\ write_single_default (LPair "key" (VPair "annotation" (VBytes "value")))
     = ([LPair "key" (VPair "annotation>" (VBytes "value"))], Throws TypeError)
  /\ read_single 3 DECODERS DefaultNone ""
       [LPair "key" (VPair "annotation>" (VBytes "value"))]
     = Raises 0 EOFError.
Proof.
  repeat match goal with |- _ /\ _ => split end; try reflexivity.
  intros fuel prefix prefixes key a v M.
  apply write_single_pair_unregistered.
  simpl in *. rewrite !orb_false_r in *.
  apply orb_false_iff in M as [M1 M].
  apply orb_false_iff in M as [M2 M].
  apply orb_false_iff in M as [M3 M4].
  now rewrite M1, M2, M3, M4.
Qed.

Lemma write_single_two_field_tuple_raises_witness :
  write_single 1 "" [] (LPair "key" (VPair "annotation" (VBytes "value")))
  = ([LPair "key" (VPair "annotation>" (VBytes "value"))], Throws TypeError).
Proof.
  apply (proj1 write_single_two_field_tuple_raises 0 "" [] "key" "annotation"
           (VBytes "value")).
  reflexivity.
Defined.

(** ** Decoder equations at any sufficient fuel *)

Lemma fuel_for_cons l s : fuel_for (l :: s) = S (S (fuel_for s)).
Proof. unfold fuel_for. simpl. lia. Qed.

Lemma fuel_for_app_r a b : fuel_for b <= fuel_for (a ++ b).
Proof. unfold fuel_for. rewrite length_app. lia. Qed.

Lemma fuel_for_app_l a b : fuel_for a <= fuel_for (a ++ b).
Proof. unfold fuel_for. rewrite length_app. lia. Qed.

Lemma read_single_stable decoders default prefix fuel fuel' s :
  fuel_for s <= fuel -> fuel_for s <= fuel' ->
  read_single fuel decoders default prefix s
  = read_single fuel' decoders default prefix s.
Proof.
  intros L L'. rewrite (read_single_fuel_for fuel) by assumption.
  now rewrite (read_single_fuel_for fuel').
Qed.

Lemma read_single_stable_pred decoders default prefix fuel s :
  fuel_for s <= S fuel ->
  read_single fuel decoders default prefix s
  = read_single (S fuel) decoders default prefix s.
Proof.
  intros L. symmetry. apply (proj1 (read_fuel_mono _ decoders default)); auto.
  apply (proj1 (read_fuel_enough _ decoders default)).
  unfold fuel_for in L. lia.
Qed.

Lemma read_stable_pred decoders default prefix fuel s :
  2 * length s + 2 <= fuel ->
  read fuel decoders default prefix s
  = read (S fuel) decoders default prefix s.
Proof.
  intros L. symmetry. apply (proj2 (read_fuel_mono _ decoders default)); auto.
  now apply (proj2 (read_fuel_enough _ decoders default)).
Qed.

(** [read] is its loop body on one [read_single], at the same fuel. *)
Lemma read_unfold decoders default prefix fuel s :
  fuel_for s <= fuel ->
  read fuel decoders default prefix s
  = of_single (read_single fuel decoders default prefix s)
              (read fuel decoders default prefix).
Proof.
  intros L. destruct fuel as [|fuel]; [unfold fuel_for in L; lia|].
  cbn [read]. rewrite (read_single_stable_pred _ _ _ _ _ L).
  pose proof (proj1 (read_pulled (S fuel) decoders default) prefix s) as P.
  destruct (read_single (S fuel) decoders default prefix s)
    as [n r|n k v r|n e|]; try reflexivity.
  apply single_pulled_shorter in P. cbn [of_single].
  rewrite read_stable_pred; [reflexivity|]. unfold fuel_for in L. lia.
Qed.

Lemma read_single_skip_stable decoders default prefix fuel s :
  fuel_for (LNone :: s) <= fuel ->
  read_single fuel decoders default prefix (LNone :: s)
  = skip_more (read_single fuel decoders default prefix s).
Proof.
  intros L. rewrite fuel_for_cons in L.
  destruct fuel as [|fuel]; [lia|].
  rewrite read_single_skip. f_equal.
  apply read_single_stable_pred. lia.
Qed.

Lemma read_single_header_stable decoders default prefix fuel k tag suffix v s :
  has_gt tag = false ->
  fuel_for (LNone :: s) <= fuel ->
  read_single fuel decoders default prefix
    (LPair (prefix ++ k) (VPair (tag ++ String gt suffix) v) :: s)
  = match
      match find_handler tag decoders with
      | Some decode =>
          apply_decoder decode v
            (read fuel decoders default (prefix ++ suffix) s)
      | None =>
          apply_default default tag v
            (read fuel decoders default (prefix ++ suffix) s)
      end
    with
    | Value v' rest => YieldPair 0 k v' rest
    | Raise e => Raises 0 e
    | HandlerFuel => SingleFuel
    end.
Proof.
  intros G L. rewrite fuel_for_cons in L.
  destruct fuel as [|fuel]; [lia|].
  rewrite read_single_header by assumption.
  rewrite (read_stable_pred _ _ _ fuel); [reflexivity|].
  unfold fuel_for in L. lia.
Qed.

(** ** Round trip *)

Lemma of_single_skip r continue :
  of_single (skip_more r) continue = yield_first [LNone] (of_single r continue).
Proof.
  destruct r as [n rest|n k v rest|n e|]; simpl; try reflexivity.
  destruct (continue rest); reflexivity.
Qed.

Lemma write_lines_cons ws l rest ys zs :
  ws l = (ys, Returns) ->
  write_lines ws rest Returns = (zs, Returns) ->
  write_lines ws (l :: rest) Returns = (ys ++ zs, Returns).
Proof. intros A B. simpl. now rewrite A, B. Qed.

Lemma roundtrip_lines default fw prefixes ls :
  0 < fw ->
  Forall (line_roundtrips default fw prefixes) ls ->
  exists out,
    write_lines (write_single fw "" prefixes) ls Returns = (out, Returns)
    /\ forall fr tail,
        fuel_for (out ++ tail) <= fr ->
        read fr DECODERS default "" (out ++ tail) = Done ls tail.
Proof.
  intros W F. induction F as [|l ls Hl F (out' & Wr & Rd)].
  - exists [LTerm]. split; [reflexivity|]. intros fr tail L.
    rewrite read_unfold by assumption.
    simpl in L. rewrite fuel_for_cons in L.
    destruct fr as [|fr]; [lia|]. reflexivity.
  - destruct l as [| |k v]; simpl in Hl; [|contradiction|].
    + exists (LNone :: out'). split.
      * apply (write_lines_cons _ _ _ [LNone]); [|assumption].
        destruct fw as [|fw]; [lia|]. reflexivity.
      * intros fr tail L. simpl in L. simpl.
        rewrite read_unfold by assumption.
        rewrite read_single_skip_stable by assumption.
        rewrite of_single_skip.
        rewrite fuel_for_cons in L.
        rewrite <- read_unfold by lia.
        rewrite Rd by lia. reflexivity.
    + destruct Hl as (out & Wl & Rl). exists (out ++ out'). split.
      * now apply write_lines_cons.
      * intros fr tail L. rewrite <- app_assoc in *.
        rewrite read_unfold by assumption.
        rewrite Rl by assumption. cbn [of_single repeat app].
        pose proof (fuel_for_app_r out (out' ++ tail)).
        rewrite Rd by lia. reflexivity.
Qed.

Lemma depth_dict_in (d : list (dkey * value)) k x :
  In (k, x) d -> depth x < depth (VDict d).
Proof.
  simpl. induction d as [|[k' x'] d IH]; intros I; [destruct I|].
  destruct I as [I|I].
  - inversion I; subst. lia.
  - specialize (IH I). lia.
Qed.

Lemma depth_list_in (l : list value) x :
  In x l -> depth x < depth (VList l).
Proof.
  simpl. induction l as [|x' l IH]; intros I; [destruct I|].
  destruct I as [I|I].
  - subst. lia.
  - specialize (IH I). lia.
Qed.

Lemma depth_hier_in tag sv (cs : list line) k x :
  In (LPair k x) cs -> depth x < depth (VHier tag sv cs).
Proof.
  simpl. induction cs as [|c cs IH]; intros I; [destruct I|].
  destruct I as [I|I].
  - subst. lia.
  - specialize (IH I). destruct c; lia.
Qed.

Lemma encode_map_items_pairs kvs :
  encode_map_items (entries_of_pairs kvs) = (lines_of_pairs kvs, Returns).
Proof.
  induction kvs as [|[k v] kvs IH]; simpl; [reflexivity|]. now rewrite IH.
Qed.

Lemma list_collect_elements l :
  list_collect (map (LPair "") l) = inr l.
Proof. induction l as [|x l IH]; simpl; [reflexivity|]. now rewrite IH. Qed.

Lemma joined_snoc_empty prefixes :
  joined prefixes = "" -> joined (prefixes ++ [""]) = "".
Proof.
  unfold joined. rewrite fold_right_app. simpl. auto.
Qed.

(** The three shapes of [write_single] on a value that opens a block. *)
Lemma write_single_dict fw prefixes key d :
  joined prefixes = "" ->
  write_single (S fw) "" prefixes (LPair key (VDict d))
  = let '(ls, le) := encode_map_items d in
    let '(ys, e) := write_lines (write_single fw "" (prefixes ++ [""])) ls le in
    (LPair key (VPair "M>" (VBytes "")) :: ys, e).
Proof.
  intros J. cbn -[write_lines encode_map_items]. rewrite J.
  destruct (encode_map_items d). reflexivity.
Qed.

Lemma write_single_list fw prefixes key l :
  joined prefixes = "" ->
  write_single (S fw) "" prefixes (LPair key (VList l))
  = let '(ys, e) :=
      write_lines (write_single fw "" (prefixes ++ [""]))
        (map (LPair "") l) Returns in
    (LPair key (VPair "L>" (VBytes "")) :: ys, e).
Proof. intros J. cbn -[write_lines]. rewrite J. reflexivity. Qed.

Lemma registered_false tag :
  registered tag = false ->
  find_handler tag ENCODERS = None /\ find_handler tag DECODERS = None.
Proof.
  unfold registered. simpl. rewrite !orb_false_r. intros M.
  apply orb_false_iff in M as [M1 M].
  apply orb_false_iff in M as [M2 M].
  apply orb_false_iff in M as [M3 M4].
  now rewrite M1, M2, M3, M4.
Qed.

Lemma write_single_hier fw prefixes key tag sv cs :
  joined prefixes = "" ->
  registered tag = false ->
  write_single (S fw) "" prefixes (LPair key (VHier tag sv cs))
  = let '(ys, e) :=
      write_lines (write_single fw "" (prefixes ++ [""])) cs Returns in
    (LPair key (VPair (tag ++ String gt "") sv) :: ys, e).
Proof.
  intros J R. destruct (registered_false _ R) as [F _].
  cbn -[write_lines find_handler ENCODERS]. rewrite F, J. reflexivity.
Qed.

Lemma roundtrip_leaf default v key prefixes fw :
  is_leaf v = true ->
  detect TYPES v = None ->
  destructure v = (None, v, CNone) ->
  joined prefixes = "" ->
  line_roundtrips default (S fw) prefixes (LPair key v).
Proof.
  intros Lf T Ds J. exists [LPair key v]. split.
  - cbn -[detect TYPES destructure]. rewrite Ds, T, J. reflexivity.
  - intros fr tail L. simpl in L. rewrite fuel_for_cons in L.
    destruct fr as [|fr]; [lia|]. simpl app.
    now rewrite read_single_leaf_step.
Qed.

Lemma read_single_header_top default fr key tag v s :
  has_gt tag = false ->
  fuel_for (LNone :: s) <= fr ->
  read_single fr DECODERS default ""
    (LPair key (VPair (tag ++ String gt "") v) :: s)
  = match
      match find_handler tag DECODERS with
      | Some decode =>
          apply_decoder decode v (read fr DECODERS default "" s)
      | None => apply_default default tag v (read fr DECODERS default "" s)
      end
    with
    | Value v' rest => YieldPair 0 key v' rest
    | Raise e => Raises 0 e
    | HandlerFuel => SingleFuel
    end.
Proof. exact (read_single_header_stable DECODERS default "" fr key tag "" v s). Qed.

Lemma roundtrip_value generic default v :
  model_value generic v ->
  (generic = true -> default = DefaultNone) ->
  forall key prefixes fw,
    joined prefixes = "" ->
    depth v < fw ->
    line_roundtrips default fw prefixes (LPair key v).
Proof.
  intros M D.
  induction M as [|n|s|b|kvs N Mk IH|l Ml IH|tag sv cs G T R NT Mc IH];
    intros key prefixes fw J Dp;
    (destruct fw as [|fw]; [lia|]);
    try (apply roundtrip_leaf; auto; reflexivity).
  - (* mapping *)
    destruct (roundtrip_lines default fw (prefixes ++ [""]) (lines_of_pairs kvs))
      as (out & Wr & Rd).
    { simpl in Dp. lia. }
    { apply Forall_forall. intros l I. apply in_map_iff in I as ([k v] & <- & I).
      apply (IH k v I); [now apply joined_snoc_empty|].
      assert (In (KStr k, v) (entries_of_pairs kvs))
        by (apply in_map_iff; exists (k, v); auto).
      pose proof (depth_dict_in _ _ _ H). lia. }
    exists (LPair key (VPair "M>" (VBytes "")) :: out). split.
    + rewrite write_single_dict by assumption.
      rewrite encode_map_items_pairs. cbv zeta beta iota. now rewrite Wr.
    + intros fr tail L. simpl app in *. rewrite fuel_for_cons in L.
      etransitivity;
        [apply (read_single_header_top default fr key "M" (VBytes "")
                  (out ++ tail) eq_refl); rewrite fuel_for_cons; lia|].
      cbn [find_handler DECODERS mem_str String.eqb Ascii.eqb Bool.eqb orb
             apply_decoder].
      rewrite Rd by lia.
      unfold decode_map. simpl truthy. cbv iota. unfold consume.
      rewrite dict_update_pairs.
      rewrite dict_of_pairs_distinct by (simpl; auto). reflexivity.
  - (* sequence *)
    destruct (roundtrip_lines default fw (prefixes ++ [""]) (map (LPair "") l))
      as (out & Wr & Rd).
    { simpl in Dp. lia. }
    { apply Forall_forall. intros x I. apply in_map_iff in I as (v & <- & I).
      apply (IH v I); [now apply joined_snoc_empty|].
      pose proof (depth_list_in _ _ I). lia. }
    exists (LPair key (VPair "L>" (VBytes "")) :: out). split.
    + rewrite write_single_list by assumption. now rewrite Wr.
    + intros fr tail L. simpl app in *. rewrite fuel_for_cons in L.
      etransitivity;
        [apply (read_single_header_top default fr key "L" (VBytes "")
                  (out ++ tail) eq_refl); rewrite fuel_for_cons; lia|].
      cbn [find_handler DECODERS mem_str String.eqb Ascii.eqb Bool.eqb orb
             apply_decoder].
      rewrite Rd by lia.
      unfold decode_list. simpl truthy. cbv iota. unfold consume.
      now rewrite list_collect_elements.
  - (* generic hierarchical value *)
    destruct (roundtrip_lines default fw (prefixes ++ [""]) cs)
      as (out & Wr & Rd).
    { simpl in Dp. lia. }
    { apply Forall_forall. intros [| |k v] I; simpl; auto.
      apply (IH k v I); [now apply joined_snoc_empty|].
      pose proof (depth_hier_in tag sv _ _ _ I). lia. }
    exists (LPair key (VPair (tag ++ String gt "") sv) :: out). split.
    + rewrite write_single_hier by assumption. now rewrite Wr.
    + intros fr tail L. simpl app in *. rewrite fuel_for_cons in L.
      rewrite (read_single_header_top default fr key tag sv (out ++ tail) T)
        by (rewrite fuel_for_cons; lia).
      destruct (registered_false _ R) as [_ F]. rewrite F.
      rewrite Rd by lia. rewrite (D G). reflexivity.
Qed.

Lemma roundtrip_stream generic default key v :
  model_value generic v ->
  (generic = true -> default = DefaultNone) ->
  exists out,
    encode [LPair key v] = (out, Returns)
    /\ decode_with default out = Done [LPair key v] [].
Proof.
  intros M D. unfold encode, write.
  destruct (roundtrip_lines default (S (S (depth_lines [LPair key v]))) []
              [LPair key v]) as (out & Wr & Rd).
  - lia.
  - constructor; [|constructor].
    apply (roundtrip_value generic default v M D); [reflexivity|].
    simpl. lia.
  - exists out. split; [exact Wr|].
    unfold decode_with. specialize (Rd (fuel_for out) []).
    rewrite app_nil_r in Rd. now apply Rd.
Qed.

(** A generic hierarchical value is encoded, and decoding its encoding with
    the default registries raises [DecodingError]. *)
Lemma generic_value_default_registries_raise :
  encode [LPair "k" (VHier "foo" (VBytes "value") [LPair "k1" (VBytes "v1")])]
  = ([LPair "k" (VPair "foo>" (VBytes "value")); LPair "k1" (VBytes "v1");
      LTerm; LTerm], Returns)
  /\ decode [LPair "k" (VPair "foo>" (VBytes "value")); LPair "k1" (VBytes "v1");
             LTerm; LTerm]
     = Fail [] DecodingError
  /\ decode [LPair "k" (VPair "foo>" (VBytes "value")); LPair "k1" (VBytes "v1");
             LTerm; LTerm]
     <> Done [LPair "k" (VHier "foo" (VBytes "value") [LPair "k1" (VBytes "v1")])]
          [].
Proof. repeat split; try reflexivity. discriminate. Qed.

(** C1 (amended). Round trip.  For every value built from scalars, mappings
    with distinct string keys and sequences, nested at will, decoding the
    encoding of [[(key, V)]] with the default registries gives back
    [[(key, V)]]; for the values that also contain generic hierarchical
    values with unregistered tags, it does so when the decoder is run with
    [default=None]. *)
Theorem encode_decode_roundtrip key v :
  (model_value false v ->
   exists out,
     encode [LPair key v] = (out, Returns)
     /\ decode out = Done [LPair key v] [])
  /\ (model_value true v ->
      exists out,
        encode [LPair key v] = (out, Returns)
        /\ decode_with DefaultNone out = Done [LPair key v] []).
Proof.
  split; intros M.
  - apply (roundtrip_stream false raise_decoding_error key v M). discriminate.
  - apply (roundtrip_stream true DefaultNone key v M). reflexivity.
Qed.

Lemma encode_decode_roundtrip_witness :
  (exists out,
      encode [LPair "k" (VDict [(KStr "k1", VList [VBytes "v1"; VBytes "v2"])])]
      = (out, Returns)
      /\ decode out
         = Done [LPair "k" (VDict [(KStr "k1", VList [VBytes "v1"; VBytes "v2"])])]
             [])
  /\ (exists out,
         encode [LPair "k" (VHier "foo" (VBytes "value")
                              [LPair "k1" (VBytes "v1")])]
         = (out, Returns)
         /\ decode_with DefaultNone out
            = Done [LPair "k" (VHier "foo" (VBytes "value")
                                 [LPair "k1" (VBytes "v1")])] []).
Proof.
  split.
  - apply (proj1 (encode_decode_roundtrip "k"
                    (VDict [(KStr "k1", VList [VBytes "v1"; VBytes "v2"])]))).
    apply (model_dict false [("k1", VList [VBytes "v1"; VBytes "v2"])]).
    + repeat constructor. simpl. tauto.
    + intros k v [E|[]]. inversion E; subst.
      apply model_list. intros x [<-|[<-|[]]]; apply model_bytes.
  - apply (proj2 (encode_decode_roundtrip "k"
                    (VHier "foo" (VBytes "value") [LPair "k1" (VBytes "v1")]))).
    apply model_hier; try reflexivity.
    + simpl. intros [E|[]]. discriminate.
    + intros k v [E|[]]. inversion E; subst. apply model_bytes.
Defined.

(** ** [write] only ever iterates lines *)

Lemma write_lines_lines_only ws ls le :
  (forall l, snd (ws l) <> NotLines) ->
  le <> NotLines ->
  snd (write_lines ws ls le) <> NotLines.
Proof.
  intros W E. induction ls as [|l ls IH]; simpl.
  - destruct le; simpl; congruence.
  - specialize (W l). destruct (ws l) as [ys [| | |]]; simpl in *;
      try congruence.
    destruct (write_lines ws ls le); simpl in *; auto.
Qed.

Lemma encode_map_items_lines_only d : snd (encode_map_items d) <> NotLines.
Proof.
  induction d as [|[[k|n|b] v] d IH]; simpl; try discriminate.
  destruct (encode_map_items d); simpl in *; auto.
Qed.

Lemma apply_encoder_lines_only enc v c :
  snd (apply_encoder enc v c) <> NotLines.
Proof.
  destruct enc; simpl; unfold encode_map, encode_list;
    destruct (truthy v); simpl; try discriminate;
    destruct c; simpl; try discriminate.
  apply encode_map_items_lines_only.
Qed.

Lemma write_single_lines_only fuel prefix prefixes l :
  snd (write_single fuel prefix prefixes l) <> NotLines.
Proof.
  revert prefixes l. induction fuel as [|fuel IH]; intros prefixes l;
    [discriminate|].
  assert (B : forall ls le,
             le <> NotLines ->
             snd (write_lines (write_single fuel prefix (prefixes ++ [prefix]))
                    ls le) <> NotLines)
    by (intros; apply write_lines_lines_only; auto).
  assert (E : forall enc v c,
             snd (let '(ls, le) := apply_encoder enc v c in
                  write_lines (write_single fuel prefix (prefixes ++ [prefix]))
                    ls le) <> NotLines).
  { intros enc v c. pose proof (apply_encoder_lines_only enc v c) as A.
    destruct (apply_encoder enc v c) as [ls le]. now apply B. }
  destruct l as [| |key v0]; try discriminate.
  destruct v0; cbn -[write_lines find_handler ENCODERS apply_encoder];
    try discriminate.
  - destruct (find_handler a ENCODERS) as [enc|].
    + specialize (E enc v0 CNone).
      destruct (apply_encoder enc v0 CNone) as [ls le].
      destruct (write_lines _ ls le). exact E.
    + discriminate.
  - specialize (E EncodeMap (VBytes "") (CDict items)).
    cbn [find_handler ENCODERS mem_str String.eqb Ascii.eqb Bool.eqb orb].
    destruct (apply_encoder EncodeMap (VBytes "") (CDict items)) as [ls le].
    destruct (write_lines _ ls le). exact E.
  - specialize (E EncodeList (VBytes "") (CList items)).
    cbn [find_handler ENCODERS mem_str String.eqb Ascii.eqb Bool.eqb orb].
    destruct (apply_encoder EncodeList (VBytes "") (CList items)) as [ls le].
    destruct (write_lines _ ls le). exact E.
  - destruct (find_handler a ENCODERS) as [enc|].
    + specialize (E enc v0 (CLines children)).
      destruct (apply_encoder enc v0 (CLines children)) as [ls le].
      destruct (write_lines _ ls le). exact E.
    + specialize (B children Returns).
      cbn [lines_of_children].
      destruct (write_lines _ children Returns). apply B. discriminate.
Qed.

(** ** The fuel of [encode] is enough *)

Lemma write_lines_fuel ws ls le :
  (forall l, In l ls -> snd (ws l) <> WriteFuel) ->
  le <> WriteFuel ->
  snd (write_lines ws ls le) <> WriteFuel.
Proof.
  intros W E. induction ls as [|l ls IH]; simpl.
  - destruct le; simpl; congruence.
  - pose proof (W l (or_introl eq_refl)) as Wl.
    destruct (ws l) as [ys [| | |]]; simpl in *; try congruence.
    destruct (write_lines ws ls le); simpl in *; auto.
Qed.

Lemma encode_map_items_fuel d :
  snd (encode_map_items d) <> WriteFuel
  /\ forall l, In l (fst (encode_map_items d)) ->
               exists k v, l = LPair k v /\ In (KStr k, v) d.
Proof.
  induction d as [|[[k|n|b] v] d [IH1 IH2]]; simpl;
    try (split; [discriminate|intros l []]).
  destruct (encode_map_items d) as [ys e]; simpl in *. split; [assumption|].
  intros l [<-|I]; [eauto|].
  destruct (IH2 l I) as (k' & v' & -> & J). eauto.
Qed.

Lemma write_single_flat_fuel fuel prefix prefixes key l :
  snd (write_single (S fuel) prefix prefixes (LPair key (value_of_line l)))
  <> WriteFuel.
Proof.
  destruct l as [| |k v]; try discriminate.
  cbn -[find_handler ENCODERS].
  destruct (find_handler k ENCODERS) as [[|]|]; simpl;
    unfold encode_map, encode_list; destruct (truthy v); discriminate.
Qed.

Lemma write_single_fuel fuel prefix prefixes l :
  depth_line l < fuel ->
  snd (write_single fuel prefix prefixes l) <> WriteFuel.
Proof.
  revert prefixes l. induction fuel as [|fuel IH]; intros prefixes l D; [lia|].
  destruct l as [| |key v0]; try discriminate. cbn [depth_line] in D.
  destruct v0; cbn -[write_lines find_handler ENCODERS depth];
    try discriminate.
  - destruct (find_handler a ENCODERS) as [[|]|]; simpl;
      unfold encode_map, encode_list; destruct (truthy v0); discriminate.
  - cbn [find_handler ENCODERS mem_str String.eqb Ascii.eqb Bool.eqb orb
           apply_encoder].
    unfold encode_map. cbn [truthy String.eqb negb].
    destruct (encode_map_items_fuel items) as [E1 E2].
    destruct (encode_map_items items) as [ls le]; cbn [fst snd] in *.
    pose proof (write_lines_fuel
                  (write_single fuel prefix (prefixes ++ [prefix])) ls le) as W.
    destruct (write_lines _ ls le). apply W; [|assumption].
    intros x I. destruct (E2 x I) as (k & v & -> & J). apply IH. cbn [depth_line].
    pose proof (depth_dict_in _ _ _ J). lia.
  - cbn [find_handler ENCODERS mem_str String.eqb Ascii.eqb Bool.eqb orb
           apply_encoder].
    unfold encode_list. cbn [truthy String.eqb negb].
    pose proof (write_lines_fuel
                  (write_single fuel prefix (prefixes ++ [prefix]))
                  (map (LPair "") items) Returns) as W.
    destruct (write_lines _ (map (LPair "") items) Returns).
    apply W; [|discriminate].
    intros x I. apply in_map_iff in I as (v & <- & I). apply IH. cbn [depth_line].
    pose proof (depth_list_in _ _ I). lia.
  - assert (F : exists fuel', fuel = S fuel').
    { destruct fuel; [|eauto]. assert (0 < depth (VHier a v0 children)) by (simpl; lia). lia. }
    destruct F as (fuel' & ->).
    destruct (find_handler a ENCODERS) as [[|]|].
    + simpl. unfold encode_map. destruct (truthy v0); discriminate.
    + cbn [apply_encoder]. unfold encode_list.
      destruct (truthy v0); [discriminate|].
      pose proof (write_lines_fuel
                    (write_single (S fuel') prefix (prefixes ++ [prefix]))
                    (map (fun l => LPair "" (value_of_line l)) children)
                    Returns) as W.
      destruct (write_lines _ _ Returns). apply W; [|discriminate].
      intros x I. apply in_map_iff in I as (c & <- & I).
      apply write_single_flat_fuel.
    + cbn [lines_of_children].
      pose proof (write_lines_fuel
                    (write_single (S fuel') prefix (prefixes ++ [prefix]))
                    children Returns) as W.
      destruct (write_lines _ children Returns). apply W; [|discriminate].
      intros [| |k v] I; try discriminate. apply IH. cbn [depth_line].
      pose proof (depth_hier_in a v0 _ _ _ I). lia.
Qed.

(** [encode] always runs to a return or to a Python exception. *)
Lemma encode_ends lines :
  snd (encode lines) = Returns \/ exists e, snd (encode lines) = Throws e.
Proof.
  assert (F : snd (encode lines) <> WriteFuel).
  { unfold encode, write. apply write_lines_fuel; [|discriminate].
    intros l I. apply write_single_fuel.
    assert (depth_line l <= depth_lines lines); [|lia].
    clear -I. induction lines as [|x xs IH]; [destruct I|].
    simpl. destruct I as [->|I]; [lia|]. specialize (IH I). lia. }
  assert (N : snd (encode lines) <> NotLines).
  { unfold encode, write. apply write_lines_lines_only; [|discriminate].
    intros l. apply write_single_lines_only. }
  destruct (snd (encode lines)); eauto; contradiction.
Qed.

(** [decode] always runs to a return or to a Python exception. *)
Lemma decode_ends default s : decode_with default s <> OutOfFuel.
Proof.
  unfold decode_with. apply (proj2 (read_fuel_enough _ _ _)).
  unfold fuel_for. lia.
Qed.

(** * Further properties of the code *)

(** ** [read] with [decoders=None] scans the stream flatly *)

Lemma raw_of_single_skip r continue :
  raw_of_single (raw_skip_more r) continue
  = raw_yield_first [RawNone] (raw_of_single r continue).
Proof.
  destruct r as [n rest|n k v rest|n k tag v p rest|n e]; simpl;
    try reflexivity; destruct (continue rest); reflexivity.
Qed.

(** X1. With [decoders=None], a [read] that is pulled to its end without its
    suspended children being iterated yields one item per line up to the
    first terminal marker of the stream, whatever blocks the headers among
    them open, and leaves the stream right after that marker. *)
Theorem read_no_decoders_flat fuel prefix pre rest :
  ~ In LTerm pre ->
  (forall k v, In (LPair k v) pre -> startswith k prefix = true) ->
  length pre < fuel ->
  read_no_decoders fuel prefix (pre ++ LTerm :: rest)
  = RawDone (map (raw_of_line prefix) pre) rest.
Proof.
  revert fuel. induction pre as [|l pre IH]; intros fuel N K L;
    (destruct fuel as [|fuel]; [simpl in L; lia|]).
  - reflexivity.
  - assert (N' : ~ In LTerm pre) by (intros I; apply N; now right).
    assert (K' : forall k v, In (LPair k v) pre -> startswith k prefix = true)
      by (intros k v I; apply (K k v); now right).
    destruct l as [| |key v].
    + change (read_no_decoders (S fuel) prefix ((LNone :: pre) ++ LTerm :: rest))
        with (raw_of_single
                (raw_skip_more
                   (read_single_no_decoders prefix (pre ++ LTerm :: rest)))
                (read_no_decoders fuel prefix)).
      rewrite raw_of_single_skip.
      change (raw_of_single
                (read_single_no_decoders prefix (pre ++ LTerm :: rest))
                (read_no_decoders fuel prefix))
        with (read_no_decoders (S fuel) prefix (pre ++ LTerm :: rest)).
      rewrite IH by (auto; simpl in L; lia). reflexivity.
    + exfalso. apply N. now left.
    + assert (H : startswith key prefix = true) by (apply (K key v); now left).
      cbn [read_no_decoders app read_single_no_decoders]. rewrite H.
      cbn [negb]. cbn [map raw_of_line].
      destruct (is_leaf v).
      * cbn [raw_of_single repeat app].
        rewrite IH by (auto; simpl in L; lia). reflexivity.
      * destruct (split_gt _) as [tag suffix]. cbn [raw_of_single repeat app].
        rewrite IH by (auto; simpl in L; lia). reflexivity.
Qed.

Lemma read_no_decoders_flat_witness :
  read_no_decoders 5 ""
    ([LPair "key" (VPair "foo>" (VBytes "value")); LPair "k1" (VBytes "v1")]
       ++ LTerm :: [LPair "sibling" (VBytes "x"); LTerm])
  = RawDone [RawSuspended "key" "foo" (VBytes "value") "";
             RawPair "k1" (VBytes "v1")]
      [LPair "sibling" (VBytes "x"); LTerm].
Proof.
  apply (read_no_decoders_flat 5 ""
           [LPair "key" (VPair "foo>" (VBytes "value")); LPair "k1" (VBytes "v1")]
           [LPair "sibling" (VBytes "x"); LTerm]).
  - simpl. intros [H|[H|[]]]; discriminate.
  - intros k v _. reflexivity.
  - simpl. lia.
Defined.

(** ** Prefix growth *)

Lemma apply_decoder_immediate_failure d v :
  apply_decoder d v (Fail [] DecodingError) = Raise DecodingError.
Proof.
  destruct d; simpl; unfold decode_map, decode_list; try reflexivity;
    destruct (truthy v); reflexivity.
Qed.

Lemma apply_default_immediate_failure d a v :
  apply_default d a v (Fail [] DecodingError) = Raise DecodingError.
Proof. destruct d; reflexivity. Qed.

(** X2. The records of a nested block are read under the prefix of the
    frame extended by the suffix of the header's annotation: when the first
    record after a header does not start with that extended prefix,
    [read_single] raises [DecodingError], whatever the registry and the
    default decoder. *)
Theorem child_without_extended_prefix fuel decoders default prefix key v0 a
  child_key child_v s :
  annotation_of v0 = Some a ->
  has_gt a = true ->
  startswith child_key (prefix ++ snd (split_gt a)) = false ->
  read_single (S (S (S fuel))) decoders default prefix
    (LPair key v0 :: LPair child_key child_v :: s)
  = Raises 0 DecodingError.
Proof.
  intros A G C. destruct (startswith key prefix) eqn:H.
  - rewrite (read_single_nested_step _ _ _ _ _ _ a) by assumption.
    assert (R : read (S (S fuel)) decoders default (prefix ++ snd (split_gt a))
                  (LPair child_key child_v :: s) = Fail [] DecodingError).
    { cbn [read]. now rewrite read_single_mismatch. }
    rewrite R. destruct (find_handler _ decoders).
    + now rewrite apply_decoder_immediate_failure.
    + now rewrite apply_default_immediate_failure.
  - now apply read_single_mismatch.
Qed.

Lemma child_without_extended_prefix_witness :
  read_single 3 DECODERS raise_decoding_error "a."
    [LPair "a.key" (VPair "Map>b." (VBytes "")); LPair "a.k1" (VBytes "v1");
     LTerm]
  = Raises 0 DecodingError.
Proof.
  apply (child_without_extended_prefix 0 DECODERS raise_decoding_error "a."
           "a.key" (VPair "Map>b." (VBytes "")) "Map>b." "a.k1" (VBytes "v1")
           [LTerm]);
    reflexivity.
Defined.

(** ** The terminal marker and the skip sentinel in [read] *)

Lemma repeat_none_no_term n : ~ In LTerm (repeat LNone n).
Proof. induction n as [|n IH]; simpl; [tauto|]. intros [H|H]; [discriminate|auto]. Qed.

Lemma run_yields_yield_first ys r zs :
  run_yields (yield_first ys r) = Some zs ->
  exists ws, run_yields r = Some ws /\ zs = ys ++ ws.
Proof. destruct r; simpl; intros H; inversion H; eauto. Qed.

(** X3. The terminal marker that ends a block is not re-exposed: no run of
    [read] yields it, and a [read] that returns has pulled the stream up to
    and including a terminal marker. *)
Theorem read_hides_terminal fuel decoders default prefix s ys :
  run_yields (read fuel decoders default prefix s) = Some ys ->
  ~ In LTerm ys
  /\ (forall rest,
         read fuel decoders default prefix s = Done ys rest ->
         exists pre, s = pre ++ LTerm :: rest).
Proof.
  intros Y. split; [|intros rest R; now apply (proj2 (read_pulled _ _ _)) in R].
  revert s ys Y. induction fuel as [|fuel IH]; intros s ys Y; [discriminate|].
  cbn [read] in Y.
  destruct (read_single fuel decoders default prefix s) as [n r|n k v r|n e|];
    cbn [of_single] in Y.
  - inversion Y; subst. apply repeat_none_no_term.
  - apply run_yields_yield_first in Y as (ws & Y & ->).
    apply IH in Y. rewrite !in_app_iff. intros [[I|I]|I].
    + now apply repeat_none_no_term in I.
    + destruct I as [I|[]]. discriminate.
    + auto.
  - inversion Y; subst. apply repeat_none_no_term.
  - discriminate.
Qed.

Lemma read_hides_terminal_witness :
  ~ In LTerm [LPair "a" (VBytes "1")]
  /\ (forall rest,
         read 6 DECODERS raise_decoding_error ""
           [LPair "a" (VBytes "1"); LTerm; LPair "b" (VBytes "2")]
         = Done [LPair "a" (VBytes "1")] rest ->
         exists pre,
           [LPair "a" (VBytes "1"); LTerm; LPair "b" (VBytes "2")]
           = pre ++ LTerm :: rest).
Proof.
  apply (read_hides_terminal 6 DECODERS raise_decoding_error ""
           [LPair "a" (VBytes "1"); LTerm; LPair "b" (VBytes "2")]).
  reflexivity.
Defined.

(** X4. Skip sentinels at the level of a block are forwarded in place: the
    run of [read] on a stream that starts with [n] sentinels is [n] yields
    of [None] followed by its run on the rest of the stream. *)
Theorem read_forwards_sentinels decoders default prefix n s fuel :
  fuel_for (repeat LNone n ++ s) <= fuel ->
  read fuel decoders default prefix (repeat LNone n ++ s)
  = yield_first (repeat LNone n) (read fuel decoders default prefix s).
Proof.
  induction n as [|n IH]; intros L.
  - simpl. destruct (read fuel decoders default prefix s); reflexivity.
  - cbn [repeat app] in *.
    rewrite read_unfold by assumption.
    rewrite read_single_skip_stable by assumption.
    rewrite of_single_skip. rewrite fuel_for_cons in L.
    rewrite <- read_unfold by lia. rewrite IH by lia.
    destruct (read fuel decoders default prefix s); reflexivity.
Qed.

Lemma read_forwards_sentinels_witness :
  read 10 DECODERS raise_decoding_error ""
    (repeat LNone 2 ++ [LPair "a" (VBytes "1"); LTerm])
  = yield_first (repeat LNone 2)
      (read 10 DECODERS raise_decoding_error ""
         [LPair "a" (VBytes "1"); LTerm]).
Proof.
  apply (read_forwards_sentinels DECODERS raise_decoding_error "" 2
           [LPair "a" (VBytes "1"); LTerm] 10).
  vm_compute. lia.
Defined.

(** ** A failure inside a block *)

(** X5. A failure of the children generator is never swallowed: when the
    block below a header raises, [read_single] raises too and yields no pair
    for the header; with an unregistered tag and [default=None] the
    exception is the one the children raised. *)
Theorem nested_failure_propagates fuel decoders default prefix k tag suffix v
  s ys e :
  has_gt tag = false ->
  read fuel decoders default (prefix ++ suffix) s = Fail ys e ->
  let header := LPair (prefix ++ k) (VPair (tag ++ String gt suffix) v) in
  (exists e',
      read_single (S fuel) decoders default prefix (header :: s) = Raises 0 e')
  /\ (find_handler tag decoders = None ->
      default = DefaultNone ->
      read_single (S fuel) decoders default prefix (header :: s) = Raises 0 e).
Proof.
  intros G R header. subst header. rewrite read_single_header by assumption.
  rewrite R. split.
  - destruct (find_handler tag decoders) as [d|].
    + destruct (apply_decoder d v (Fail ys e)) eqn:E; eauto.
      * apply apply_decoder_value in E as (zs & E). discriminate.
      * apply apply_decoder_fuel in E. discriminate.
    + destruct (apply_default default tag v (Fail ys e)) eqn:E; eauto.
      * apply apply_default_value in E as (zs & E). discriminate.
      * apply apply_default_fuel in E. discriminate.
  - intros F D. rewrite F, D. reflexivity.
Qed.

Lemma nested_failure_propagates_witness :
  read_single 7 DECODERS DefaultNone ""
    [LPair "key" (VPair "foo>" (VBytes "value")); LPair "k1" (VBytes "v1")]
  = Raises 0 EOFError.
Proof.
  apply (proj2 (nested_failure_propagates 6 DECODERS DefaultNone "" "key"
                  "foo" "" (VBytes "value") [LPair "k1" (VBytes "v1")]
                  [LPair "k1" (VBytes "v1")] EOFError eq_refl eq_refl));
    reflexivity.
Defined.

(** ** Round trip under any prefix, for blocks of several lines *)

Lemma string_app_assoc (a b c : string) :
  ((a ++ b) ++ c)%string = (a ++ (b ++ c))%string.
Proof. induction a as [|x a IH]; simpl; congruence. Qed.

Lemma joined_snoc prefixes prefix :
  joined (prefixes ++ [prefix]) = (joined prefixes ++ prefix)%string.
Proof.
  induction prefixes as [|p ps IH]; simpl.
  - apply append_empty_r.
  - fold (joined (ps ++ [prefix])). fold (joined ps).
    rewrite IH. symmetry. apply string_app_assoc.
Qed.

Lemma roundtrip_lines_at default fw prefix prefixes ls :
  0 < fw ->
  Forall (line_roundtrips_at default fw prefix prefixes) ls ->
  exists out,
    write_lines (write_single fw prefix prefixes) ls Returns = (out, Returns)
    /\ forall fr tail,
        fuel_for (out ++ tail) <= fr ->
        read fr DECODERS default (joined prefixes) (out ++ tail) = Done ls tail.
Proof.
  intros W F. induction F as [|l ls Hl F (out' & Wr & Rd)].
  - exists [LTerm]. split; [reflexivity|]. intros fr tail L.
    rewrite read_unfold by assumption.
    simpl in L. rewrite fuel_for_cons in L.
    destruct fr as [|fr]; [lia|]. reflexivity.
  - destruct l as [| |k v]; simpl in Hl; [|contradiction|].
    + exists (LNone :: out'). split.
      * apply (write_lines_cons _ _ _ [LNone]); [|assumption].
        destruct fw as [|fw]; [lia|]. reflexivity.
      * intros fr tail L. simpl in L. simpl.
        rewrite read_unfold by assumption.
        rewrite read_single_skip_stable by assumption.
        rewrite of_single_skip.
        rewrite fuel_for_cons in L.
        rewrite <- read_unfold by lia.
        rewrite Rd by lia. reflexivity.
    + destruct Hl as (out & Wl & Rl). exists (out ++ out'). split.
      * now apply write_lines_cons.
      * intros fr tail L. rewrite <- app_assoc in *.
        rewrite read_unfold by assumption.
        rewrite Rl by assumption. cbn [of_single repeat app].
        pose proof (fuel_for_app_r out (out' ++ tail)).
        rewrite Rd by lia. reflexivity.
Qed.

Lemma write_single_dict_at fw prefix prefixes key d :
  write_single (S fw) prefix prefixes (LPair key (VDict d))
  = let '(ls, le) := encode_map_items d in
    let '(ys, e) :=
      write_lines (write_single fw prefix (prefixes ++ [prefix])) ls le in
    (LPair (joined prefixes ++ key) (VPair ("M" ++ String gt prefix) (VBytes ""))
       :: ys, e).
Proof.
  cbn -[write_lines encode_map_items joined].
  destruct (encode_map_items d). reflexivity.
Qed.

Lemma write_single_list_at fw prefix prefixes key l :
  write_single (S fw) prefix prefixes (LPair key (VList l))
  = let '(ys, e) :=
      write_lines (write_single fw prefix (prefixes ++ [prefix]))
        (map (LPair "") l) Returns in
    (LPair (joined prefixes ++ key) (VPair ("L" ++ String gt prefix) (VBytes ""))
       :: ys, e).
Proof. reflexivity. Qed.

Lemma write_single_hier_at fw prefix prefixes key tag sv cs :
  registered tag = false ->
  write_single (S fw) prefix prefixes (LPair key (VHier tag sv cs))
  = let '(ys, e) :=
      write_lines (write_single fw prefix (prefixes ++ [prefix])) cs Returns in
    (LPair (joined prefixes ++ key) (VPair (tag ++ String gt prefix) sv)
       :: ys, e).
Proof.
  intros R. destruct (registered_false _ R) as [F _].
  cbn -[write_lines find_handler ENCODERS joined]. rewrite F. reflexivity.
Qed.

Lemma roundtrip_leaf_at default v key prefix prefixes fw :
  is_leaf v = true ->
  detect TYPES v = None ->
  destructure v = (None, v, CNone) ->
  line_roundtrips_at default (S fw) prefix prefixes (LPair key v).
Proof.
  intros Lf T Ds. exists [LPair (joined prefixes ++ key) v]. split.
  - cbn -[detect TYPES destructure joined]. rewrite Ds, T. reflexivity.
  - intros fr tail L. simpl in L. rewrite fuel_for_cons in L.
    destruct fr as [|fr]; [lia|]. simpl app.
    rewrite read_single_leaf_step by (auto using startswith_app).
    now rewrite removeprefix_app.
Qed.

Lemma roundtrip_value_at generic default prefix v :
  model_value generic v ->
  (generic = true -> default = DefaultNone) ->
  forall key prefixes fw,
    depth v < fw ->
    line_roundtrips_at default fw prefix prefixes (LPair key v).
Proof.
  intros M D.
  induction M as [|n|s|b|kvs N Mk IH|l Ml IH|tag sv cs G T R NT Mc IH];
    intros key prefixes fw Dp;
    (destruct fw as [|fw]; [lia|]);
    try (apply roundtrip_leaf_at; auto; reflexivity).
  - (* mapping *)
    destruct (roundtrip_lines_at default fw prefix (prefixes ++ [prefix])
                (lines_of_pairs kvs)) as (out & Wr & Rd).
    { simpl in Dp. lia. }
    { apply Forall_forall. intros x I. apply in_map_iff in I as ([k v] & <- & I).
      apply (IH k v I).
      assert (In (KStr k, v) (entries_of_pairs kvs))
        by (apply in_map_iff; exists (k, v); auto).
      pose proof (depth_dict_in _ _ _ H). lia. }
    exists (LPair (joined prefixes ++ key)
              (VPair ("M" ++ String gt prefix) (VBytes "")) :: out).
    split.
    + rewrite write_single_dict_at.
      rewrite encode_map_items_pairs. cbv zeta beta iota. now rewrite Wr.
    + intros fr tail L. simpl app in *. rewrite fuel_for_cons in L.
      etransitivity;
        [apply (read_single_header_stable DECODERS default (joined prefixes)
                  fr key "M" prefix (VBytes "") (out ++ tail) eq_refl);
         rewrite fuel_for_cons; lia|].
      cbn [find_handler DECODERS mem_str String.eqb Ascii.eqb Bool.eqb orb
             apply_decoder].
      rewrite <- joined_snoc. rewrite Rd by lia.
      unfold decode_map. simpl truthy. cbv iota. unfold consume.
      rewrite dict_update_pairs.
      rewrite dict_of_pairs_distinct by (simpl; auto). reflexivity.
  - (* sequence *)
    destruct (roundtrip_lines_at default fw prefix (prefixes ++ [prefix])
                (map (LPair "") l)) as (out & Wr & Rd).
    { simpl in Dp. lia. }
    { apply Forall_forall. intros x I. apply in_map_iff in I as (v & <- & I).
      apply (IH v I). pose proof (depth_list_in _ _ I). lia. }
    exists (LPair (joined prefixes ++ key)
              (VPair ("L" ++ String gt prefix) (VBytes "")) :: out).
    split.
    + rewrite write_single_list_at. now rewrite Wr.
    + intros fr tail L. simpl app in *. rewrite fuel_for_cons in L.
      etransitivity;
        [apply (read_single_header_stable DECODERS default (joined prefixes)
                  fr key "L" prefix (VBytes "") (out ++ tail) eq_refl);
         rewrite fuel_for_cons; lia|].
      cbn [find_handler DECODERS mem_str String.eqb Ascii.eqb Bool.eqb orb
             apply_decoder].
      rewrite <- joined_snoc. rewrite Rd by lia.
      unfold decode_list. simpl truthy. cbv iota. unfold consume.
      now rewrite list_collect_elements.
  - (* generic hierarchical value *)
    destruct (roundtrip_lines_at default fw prefix (prefixes ++ [prefix]) cs)
      as (out & Wr & Rd).
    { simpl in Dp. lia. }
    { apply Forall_forall. intros [| |k v] I; simpl; auto.
      apply (IH k v I). pose proof (depth_hier_in tag sv _ _ _ I). lia. }
    exists (LPair (joined prefixes ++ key)
              (VPair (tag ++ String gt prefix) sv) :: out).
    split.
    + rewrite write_single_hier_at by assumption. now rewrite Wr.
    + intros fr tail L. simpl app in *. rewrite fuel_for_cons in L.
      rewrite (read_single_header_stable DECODERS default (joined prefixes)
                 fr key tag prefix sv (out ++ tail) T)
        by (rewrite fuel_for_cons; lia).
      destruct (registered_false _ R) as [_ F]. rewrite F.
      rewrite <- joined_snoc. rewrite Rd by lia. rewrite (D G). reflexivity.
Qed.

Lemma depth_line_le_lines l lines :
  In l lines -> depth_line l <= depth_lines lines.
Proof.
  induction lines as [|x xs IH]; intros I; [destruct I|].
  simpl. destruct I as [->|I]; [lia|]. specialize (IH I). lia.
Qed.

(** X6. Round trip of a whole block under any prefix.  For every [prefix]
    and [prefixes] given to [write], and every block of skip sentinels and
    records of model values, [write] returns and [read], run on its output
    under the accumulated prefix, yields the block back and stops right
    after it, leaving what follows in the stream untouched. *)
Theorem write_read_roundtrip generic default prefix prefixes lines tail :
  model_lines generic lines ->
  (generic = true -> default = DefaultNone) ->
  exists out,
    write (S (S (depth_lines lines))) prefix prefixes lines = (out, Returns)
    /\ read (fuel_for (out ++ tail)) DECODERS default (joined prefixes)
         (out ++ tail)
       = Done lines tail.
Proof.
  intros [NT M] D. unfold write.
  destruct (roundtrip_lines_at default (S (S (depth_lines lines))) prefix
              prefixes lines) as (out & Wr & Rd).
  - lia.
  - apply Forall_forall. intros [| |k v] I; [exact Logic.I|exact (NT I)|].
    apply (roundtrip_value_at generic default prefix v (M k v I) D).
    pose proof (depth_line_le_lines _ _ I) as Le. simpl in Le. lia.
  - exists out. split; [exact Wr|]. now apply Rd.
Qed.

Lemma write_read_roundtrip_witness :
  exists out,
    write (S (S (depth_lines
                   [LNone; LPair "a" (VDict [(KStr "k", VList [VBytes "v"])]);
                    LPair "b" (VBytes "w")])))
      "p." ["r."]
      [LNone; LPair "a" (VDict [(KStr "k", VList [VBytes "v"])]);
       LPair "b" (VBytes "w")]
    = (out, Returns)
    /\ read (fuel_for (out ++ [LPair "next" VNone])) DECODERS
         raise_decoding_error (joined ["r."]) (out ++ [LPair "next" VNone])
       = Done [LNone; LPair "a" (VDict [(KStr "k", VList [VBytes "v"])]);
               LPair "b" (VBytes "w")]
           [LPair "next" VNone].
Proof.
  apply (write_read_roundtrip false raise_decoding_error "p." ["r."]
           [LNone; LPair "a" (VDict [(KStr "k", VList [VBytes "v"])]);
            LPair "b" (VBytes "w")]
           [LPair "next" VNone]).
  - split.
    + simpl. intros [H|[H|[H|[]]]]; discriminate.
    + intros k v [H|[H|[H|[]]]]; inversion H; subst.
      * apply (model_dict false [("k", VList [VBytes "v"])]).
        -- repeat constructor. simpl. tauto.
        -- intros k' v' [E|[]]. inversion E; subst.
           apply model_list. intros x [<-|[]]. apply model_bytes.
      * apply model_bytes.
  - discriminate.
Defined.

Example write_with_prefix_output :
  write 3 "p." [] [LPair "a" (VDict [(KStr "k", VList [VBytes "v"])])]
  = ([LPair "a" (VPair "M>p." (VBytes ""));
      LPair "p.k" (VPair "L>p." (VBytes ""));
      LPair "p.p." (VBytes "v"); LTerm; LTerm; LTerm], Returns).
Proof. reflexivity. Qed.

(** ** Skip sentinels inside built-in blocks *)

Lemma dict_update_sentinel d before after :
  Forall is_record before ->
  dict_update d (before ++ LNone :: after) = inl TypeError.
Proof.
  intros B. revert d. induction B as [|l before (k & v & ->) B IH]; intros d;
    simpl; auto.
Qed.

Lemma list_collect_sentinel before after :
  Forall (fun l => exists v, l = LPair "" v) before ->
  list_collect (before ++ LNone :: after) = inl TypeError.
Proof.
  intros B. induction B as [|l before (v & ->) B IH]; simpl; auto.
  now rewrite IH.
Qed.

(** X7. A skip sentinel among the children of a built-in block cannot be
    decoded: [dict(stream)] in [decode_map] and the unpacking in
    [decode_list] raise [TypeError] on it, when the children before it are
    records (with empty keys, for a [List] block). *)
Theorem sentinel_in_builtin_block fuel default prefix k tag suffix v s
  before after :
  truthy v = false ->
  run_yields (read fuel DECODERS default (prefix ++ suffix) s)
  = Some (before ++ LNone :: after) ->
  let header := LPair (prefix ++ k) (VPair (tag ++ String gt suffix) v) in
  (mem_str tag ["Map"; "M"] = true ->
   Forall is_record before ->
   read_single (S fuel) DECODERS default prefix (header :: s)
   = Raises 0 TypeError)
  /\ (mem_str tag ["List"; "L"] = true ->
      Forall (fun l => exists x, l = LPair "" x) before ->
      read_single (S fuel) DECODERS default prefix (header :: s)
      = Raises 0 TypeError).
Proof.
  intros T Y header. subst header. split; intros M B.
  - destruct (map_alias _ M) as [G F].
    rewrite read_single_header by assumption. rewrite F.
    cbn [apply_decoder]. unfold decode_map. rewrite T.
    destruct (read fuel DECODERS default (prefix ++ suffix) s);
      simpl in Y; inversion Y; subst; simpl;
      now rewrite dict_update_sentinel.
  - destruct (list_alias _ M) as [G F].
    rewrite read_single_header by assumption. rewrite F.
    cbn [apply_decoder]. unfold decode_list. rewrite T.
    destruct (read fuel DECODERS default (prefix ++ suffix) s);
      simpl in Y; inversion Y; subst; simpl;
      now rewrite list_collect_sentinel.
Qed.

Lemma sentinel_in_builtin_block_witness :
  read_single 9 DECODERS raise_decoding_error ""
    [LPair "key" (VPair "Map>" (VBytes ""));
     LPair "k1" (VBytes "v1"); LNone; LPair "k2" (VBytes "v2"); LTerm]
  = Raises 0 TypeError.
Proof.
  apply (proj1 (sentinel_in_builtin_block 8 raise_decoding_error "" "key"
                  "Map" "" (VBytes "")
                  [LPair "k1" (VBytes "v1"); LNone; LPair "k2" (VBytes "v2");
                   LTerm]
                  [LPair "k1" (VBytes "v1")] [LPair "k2" (VBytes "v2")]
                  eq_refl eq_refl)).
  - reflexivity.
  - repeat constructor. exists "k1", (VBytes "v1"). reflexivity.
Defined.

(** ** Aliases *)

Lemma read_single_annotated fuel decoders default prefix key tag suffix v s :
  has_gt tag = false ->
  read_single (S fuel) decoders default prefix
    (LPair key (VPair (tag ++ String gt suffix) v) :: s)
  = if startswith key prefix then
      match
        match find_handler tag decoders with
        | Some decode =>
            apply_decoder decode v
              (read fuel decoders default (prefix ++ suffix) s)
        | None =>
            apply_default default tag v
              (read fuel decoders default (prefix ++ suffix) s)
        end
      with
      | Value v' rest => YieldPair 0 (removeprefix key prefix) v' rest
      | Raise e => Raises 0 e
      | HandlerFuel => SingleFuel
      end
    else Raises 0 DecodingError.
Proof.
  intros G. destruct (startswith key prefix) eqn:H.
  - rewrite (read_single_nested_step _ _ _ _ _ _ (tag ++ String gt suffix))
      by (auto using has_gt_tag).
    now rewrite split_gt_tag.
  - now apply read_single_mismatch.
Qed.

(** X8. The spellings of an alias-set are interchangeable on decode: two
    headers that differ only by the alias of the same built-in handler
    ("Map" / "M", "List" / "L") give the same run of [read_single]. *)
Theorem aliases_decode_alike fuel default prefix key suffix v s aliases t1 t2
  handler :
  In (aliases, handler) DECODERS ->
  mem_str t1 aliases = true ->
  mem_str t2 aliases = true ->
  read_single (S fuel) DECODERS default prefix
    (LPair key (VPair (t1 ++ String gt suffix) v) :: s)
  = read_single (S fuel) DECODERS default prefix
      (LPair key (VPair (t2 ++ String gt suffix) v) :: s).
Proof.
  intros I M1 M2.
  assert (A : forall t, mem_str t aliases = true ->
                        has_gt t = false
                        /\ find_handler t DECODERS = Some handler).
  { intros t M. destruct I as [I|[I|[]]]; inversion I; subst.
    - apply map_alias, M.
    - apply list_alias, M. }
  destruct (A t1 M1) as [G1 F1]. destruct (A t2 M2) as [G2 F2].
  rewrite !read_single_annotated by assumption. now rewrite F1, F2.
Qed.

Lemma aliases_decode_alike_witness :
  read_single 9 DECODERS raise_decoding_error ""
    [LPair "key" (VPair "Map>" (VBytes "")); LPair "k1" (VBytes "v1"); LTerm]
  = read_single 9 DECODERS raise_decoding_error ""
      [LPair "key" (VPair "M>" (VBytes "")); LPair "k1" (VBytes "v1"); LTerm].
Proof.
  apply (aliases_decode_alike 8 raise_decoding_error "" "key" "" (VBytes "")
           [LPair "k1" (VBytes "v1"); LTerm] ["Map"; "M"] "Map" "M" DecodeMap).
  - left. reflexivity.
  - reflexivity.
  - reflexivity.
Defined.

(** ** Keys written by the encoder *)

Lemma startswith_app_l k a b :
  startswith k (a ++ b) = true -> startswith k a = true.
Proof.
  revert k. induction a as [|c a IH]; intros k; simpl; [reflexivity|].
  destruct k as [|d k]; [discriminate|].
  intros H. apply andb_true_iff in H as [H1 H2].
  rewrite H1. simpl. now apply IH.
Qed.

Lemma write_lines_keys ws ls le X :
  (forall l k v, In (LPair k v) (fst (ws l)) -> startswith k X = true) ->
  forall k v,
    In (LPair k v) (fst (write_lines ws ls le)) -> startswith k X = true.
Proof.
  intros W. induction ls as [|l ls IH]; intros k v; simpl.
  - destruct le; simpl; intuition discriminate.
  - pose proof (W l k v) as Wl.
    destruct (ws l) as [ys [| | |]]; simpl in *; auto.
    destruct (write_lines ws ls le) as [zs e]; simpl in *.
    rewrite in_app_iff. intros [I|I]; [auto|exact (IH k v I)].
Qed.

(** X9. On encode the accumulated prefix is prepended to every key: each
    record that [write_single] emits, header or child at any depth, has a
    key that starts with the concatenation of [prefixes]. *)
Theorem write_single_keys_prefixed fuel prefix prefixes l k v :
  In (LPair k v) (fst (write_single fuel prefix prefixes l)) ->
  startswith k (joined prefixes) = true.
Proof.
  revert prefixes l k v.
  induction fuel as [|fuel IH]; intros prefixes l k v; [simpl; intros []|].
  assert (B : forall ls le k v,
             In (LPair k v)
               (fst (write_lines (write_single fuel prefix (prefixes ++ [prefix]))
                       ls le)) ->
             startswith k (joined prefixes) = true).
  { intros ls le k' v' I.
    apply (startswith_app_l _ _ prefix). rewrite <- joined_snoc.
    revert I. apply write_lines_keys. intros l'. apply IH. }
  assert (H : forall key v0 ys (e : wend),
             (forall k v, In (LPair k v) ys ->
                          startswith k (joined prefixes) = true) ->
             In (LPair k v) (fst (LPair (joined prefixes ++ key) v0 :: ys, e)) ->
             startswith k (joined prefixes) = true).
  { intros key v0 ys e Hy [I|I]; [|now apply (Hy k v)].
    inversion I; subst. apply startswith_app. }
  destruct l as [| |key v0]; try (intros [I|[]]; discriminate).
  destruct v0;
    cbn -[write_lines find_handler ENCODERS apply_encoder joined In fst];
    try (apply H; intros ? ? []).
  - destruct (find_handler a ENCODERS) as [enc|].
    + destruct (apply_encoder enc v0 CNone) as [ls le].
      pose proof (B ls le) as Bl. destruct (write_lines _ ls le).
      apply H. exact Bl.
    + apply H. intros ? ? [].
  - cbn [find_handler ENCODERS mem_str String.eqb Ascii.eqb Bool.eqb orb].
    destruct (apply_encoder EncodeMap (VBytes "") (CDict items)) as [ls le].
    pose proof (B ls le) as Bl. destruct (write_lines _ ls le).
    apply H. exact Bl.
  - cbn [find_handler ENCODERS mem_str String.eqb Ascii.eqb Bool.eqb orb].
    destruct (apply_encoder EncodeList (VBytes "") (CList items)) as [ls le].
    pose proof (B ls le) as Bl. destruct (write_lines _ ls le).
    apply H. exact Bl.
  - destruct (find_handler a ENCODERS) as [enc|].
    + destruct (apply_encoder enc v0 (CLines children)) as [ls le].
      pose proof (B ls le) as Bl. destruct (write_lines _ ls le).
      apply H. exact Bl.
    + cbn [lines_of_children].
      pose proof (B children Returns) as Bl.
      destruct (write_lines _ children Returns).
      apply H. exact Bl.
Qed.

Lemma write_single_keys_prefixed_witness :
  startswith "r.p.k" (joined ["r."]) = true.
Proof.
  apply (write_single_keys_prefixed 3 "p." ["r."]
           (LPair "a" (VDict [(KStr "k", VBytes "v")])) "r.p.k" (VBytes "v")).
  vm_compute. right. left. reflexivity.
Defined.

(** ** Blocks written by [write] *)

Lemma write_lines_returns ws ls out :
  write_lines ws ls Returns = (out, Returns) ->
  exists body, out = body ++ [LTerm].
Proof.
  revert out. induction ls as [|l ls IH]; intros out; simpl.
  - intros H; inversion H. exists []. reflexivity.
  - destruct (ws l) as [ys [| | |]]; try (intros H; discriminate).
    destruct (write_lines ws ls Returns) as [zs e].
    intros H; inversion H; subst.
    destruct (IH zs eq_refl) as (body & ->).
    exists (ys ++ body). now rewrite app_assoc.
Qed.

Lemma write_lines_app ws pre post le body :
  write_lines ws pre Returns = (body ++ [LTerm], Returns) ->
  write_lines ws (pre ++ post) le
  = (body ++ fst (write_lines ws post le), snd (write_lines ws post le)).
Proof.
  revert body. induction pre as [|l pre IH]; intros body; simpl.
  - intros H. inversion H as [E].
    destruct body as [|b [|b' body]]; try discriminate.
    simpl. now destruct (write_lines ws post le).
  - destruct (ws l) as [ys [| | |]]; try (intros H; discriminate).
    destruct (write_lines ws pre Returns) as [zs e] eqn:Z.
    intros H; inversion H; subst.
    destruct (write_lines_returns _ _ _ Z) as (b & ->).
    rewrite app_assoc in H1. apply app_inj_tail in H1 as [<- _].
    rewrite (IH b eq_refl). simpl. now rewrite app_assoc.
Qed.

(** X10. A block that [write] writes to its end finishes with the terminal
    marker, and blocks compose: writing [pre ++ post] writes [pre] without
    its terminal marker, then what writing [post] gives; in particular the
    first line whose [write_single] raises ends the output there, with no
    terminal marker. *)
Theorem write_block_structure fuel prefix prefixes pre post body :
  write fuel prefix prefixes pre = (body ++ [LTerm], Returns) ->
  write fuel prefix prefixes (pre ++ post)
  = (body ++ fst (write fuel prefix prefixes post),
     snd (write fuel prefix prefixes post))
  /\ (forall l rest ys e,
         post = l :: rest ->
         write_single fuel prefix prefixes l = (ys, Throws e) ->
         write fuel prefix prefixes (pre ++ post) = (body ++ ys, Throws e))
  /\ (forall out,
         write fuel prefix prefixes post = (out, Returns) ->
         exists body', out = body' ++ [LTerm]).
Proof.
  unfold write. intros H. repeat split.
  - now apply write_lines_app.
  - intros l rest ys e -> W. rewrite (write_lines_app _ _ _ _ _ H).
    simpl. now rewrite W.
  - intros out. apply write_lines_returns.
Qed.

Lemma write_block_structure_witness :
  write 3 "" [] ([LPair "a" (VBytes "1")] ++ [LPair "b" (VPair "x" VNone);
                                              LPair "c" (VBytes "3")])
  = ([LPair "a" (VBytes "1")] ++ [LPair "b" (VPair "x>" VNone)],
     Throws TypeError).
Proof.
  apply (proj1 (proj2 (write_block_structure 3 "" []
                         [LPair "a" (VBytes "1")]
                         [LPair "b" (VPair "x" VNone); LPair "c" (VBytes "3")]
                         [LPair "a" (VBytes "1")] eq_refl))
           (LPair "b" (VPair "x" VNone)) [LPair "c" (VBytes "3")]);
    reflexivity.
Defined.

(** ** A mapping with a key that is not a string *)

Lemma encode_map_items_until_non_str kvs k x rest :
  is_str k = false ->
  encode_map_items (entries_of_pairs kvs ++ (k, x) :: rest)
  = (lines_of_pairs kvs, Throws ValueError).
Proof.
  intros S0. induction kvs as [|[k' v'] kvs IH].
  - simpl. destruct k; [discriminate| |]; reflexivity.
  - change (entries_of_pairs ((k', v') :: kvs))
      with ((KStr k', v') :: entries_of_pairs kvs).
    cbn [app encode_map_items]. rewrite IH. reflexivity.
Qed.

(** X11. Encoding a mapping stops at its first key that is not a string:
    the header and the entries before that key are written, then
    [ValueError] is raised and the block is left without its terminal
    marker. *)
Theorem write_single_stops_at_non_str_key fw prefix prefixes key kvs k x rest
  body :
  is_str k = false ->
  write fw prefix (prefixes ++ [prefix]) (lines_of_pairs kvs)
  = (body ++ [LTerm], Returns) ->
  write_single (S fw) prefix prefixes
    (LPair key (VDict (entries_of_pairs kvs ++ (k, x) :: rest)))
  = (LPair (joined prefixes ++ key)
       (VPair ("M" ++ String gt prefix) (VBytes "")) :: body,
     Throws ValueError).
Proof.
  intros S0 W. rewrite write_single_dict_at.
  rewrite encode_map_items_until_non_str by assumption.
  cbv zeta beta iota. unfold write in W.
  pose proof (write_lines_app _ _ [] (Throws ValueError) _ W) as A.
  rewrite app_nil_r in A. rewrite A. simpl. now rewrite app_nil_r.
Qed.

Lemma write_single_stops_at_non_str_key_witness :
  write_single 3 "" []
    (LPair "key" (VDict (entries_of_pairs [("a", VBytes "1")]
                           ++ (KInt 7, VBytes "2") :: [(KStr "c", VBytes "3")])))
  = (LPair (joined [] ++ "key") (VPair ("M" ++ String gt "") (VBytes ""))
       :: [LPair "a" (VBytes "1")],
     Throws ValueError).
Proof.
  apply (write_single_stops_at_non_str_key 2 "" [] "key" [("a", VBytes "1")]
           (KInt 7) (VBytes "2") [(KStr "c", VBytes "3")]
           [LPair "a" (VBytes "1")]);
    reflexivity.
Defined.

(** ** Values that carry a built-in annotation themselves *)

Lemma encoder_of_map_alias tag :
  mem_str tag ["Map"; "M"] = true -> find_handler tag ENCODERS = Some EncodeMap.
Proof.
  simpl. rewrite orb_false_r. intros H.
  apply orb_true_iff in H as [H|H]; apply String.eqb_eq in H; subst;
    reflexivity.
Qed.

Lemma encoder_of_list_alias tag :
  mem_str tag ["List"; "L"] = true ->
  find_handler tag ENCODERS = Some EncodeList.
Proof.
  simpl. rewrite orb_false_r. intros H.
  apply orb_true_iff in H as [H|H]; apply String.eqb_eq in H; subst;
    reflexivity.
Qed.

(** X12. Only a native mapping reaches [encode_map] with children it can
    iterate: a two-element tuple or a hierarchical value whose annotation is
    an alias of [Map] is written as its header only, after which
    [DecodingError] (non-empty scalar) or [AttributeError] (no [items] on
    the children) is raised; a two-element tuple with an alias of [List]
    raises [DecodingError] or [TypeError] in the same way. *)
Theorem explicit_builtin_annotation_raises fuel prefix prefixes key tag sv :
  let header :=
    LPair (joined prefixes ++ key) (VPair (tag ++ String gt prefix) sv) in
  (mem_str tag ["Map"; "M"] = true ->
   (forall cs,
       write_single (S fuel) prefix prefixes (LPair key (VHier tag sv cs))
       = ([header],
          Throws (if truthy sv then DecodingError else AttributeError)))
   /\ write_single (S fuel) prefix prefixes (LPair key (VPair tag sv))
      = ([header],
         Throws (if truthy sv then DecodingError else AttributeError)))
  /\ (mem_str tag ["List"; "L"] = true ->
      write_single (S fuel) prefix prefixes (LPair key (VPair tag sv))
      = ([header], Throws (if truthy sv then DecodingError else TypeError))).
Proof.
  intros header. subst header. split; intros M.
  - pose proof (encoder_of_map_alias _ M) as F. split; [intros cs|];
      cbn -[find_handler ENCODERS joined]; rewrite F; simpl;
      unfold encode_map; destruct (truthy sv); reflexivity.
  - pose proof (encoder_of_list_alias _ M) as F.
    cbn -[find_handler ENCODERS joined]; rewrite F; simpl;
      unfold encode_list; destruct (truthy sv); reflexivity.
Qed.

Lemma explicit_builtin_annotation_raises_witness :
  write_single 1 "" [] (LPair "key" (VHier "Map" (VBytes "") [LPair "k" VNone]))
  = ([LPair (joined [] ++ "key") (VPair ("Map" ++ String gt "") (VBytes ""))],
     Throws (if truthy (VBytes "") then DecodingError else AttributeError)).
Proof.
  apply (proj1 (proj1 (explicit_builtin_annotation_raises 0 "" [] "key" "Map"
                         (VBytes "")) eq_refl)).
Defined.

(** ** What follows a block in the stream *)

Lemma consume_rest walk ys r r' v :
  consume walk (Done ys r) = Value v r ->
  consume walk (Done ys r') = Value v r'.
Proof. simpl. destruct (walk ys); intros H; inversion H; reflexivity. Qed.

Lemma apply_decoder_rest d v ys r r' v' :
  apply_decoder d v (Done ys r) = Value v' r ->
  apply_decoder d v (Done ys r') = Value v' r'.
Proof.
  destruct d; simpl; unfold decode_map, decode_list;
    try (destruct (truthy v); [discriminate|]);
    apply consume_rest.
Qed.

Lemma apply_default_rest d a v ys r r' v' :
  apply_default d a v (Done ys r) = Value v' r ->
  apply_default d a v (Done ys r') = Value v' r'.
Proof.
  destruct d; simpl; try discriminate.
  - intros H; inversion H; reflexivity.
  - destruct (f a v ys); intros H; inversion H; reflexivity.
Qed.

Lemma read_local fuel decoders default :
  (forall prefix s extra,
      match read_single fuel decoders default prefix s with
      | YieldTerm n r =>
          read_single fuel decoders default prefix (s ++ extra)
          = YieldTerm n (r ++ extra)
      | YieldPair n k v r =>
          read_single fuel decoders default prefix (s ++ extra)
          = YieldPair n k v (r ++ extra)
      | _ => True
      end)
  /\ (forall prefix s extra ys r,
         read fuel decoders default prefix s = Done ys r ->
         read fuel decoders default prefix (s ++ extra) = Done ys (r ++ extra)).
Proof.
  induction fuel as [|fuel [IHs IHr]]; split; try (simpl; auto; discriminate).
  - intros prefix [|[| |key v0] s'] extra; cbn [read_single app]; auto.
    + specialize (IHs prefix s' extra).
      destruct (read_single fuel decoders default prefix s'); simpl; auto;
        now rewrite IHs.
    + destruct (startswith key prefix); cbn [negb]; auto.
      destruct (is_leaf v0); auto.
      destruct (split_gt _) as [tag suffix].
      destruct (find_handler tag decoders) as [d|].
      * destruct (apply_decoder d _ (read fuel _ _ _ s')) as [v' rest| |] eqn:E;
          auto.
        destruct (apply_decoder_value _ _ _ _ _ E) as (ys & R).
        rewrite (IHr _ _ extra _ _ R). rewrite R in E.
        now rewrite (apply_decoder_rest _ _ _ _ (rest ++ extra) _ E).
      * destruct (apply_default default _ _ (read fuel _ _ _ s'))
          as [v' rest| |] eqn:E; auto.
        destruct (apply_default_value _ _ _ _ _ _ E) as (ys & R).
        rewrite (IHr _ _ extra _ _ R). rewrite R in E.
        now rewrite (apply_default_rest _ _ _ _ _ (rest ++ extra) _ E).
  - intros prefix s extra ys r. cbn [read]. specialize (IHs prefix s extra).
    destruct (read_single fuel decoders default prefix s) as [n r0|n k v r0|n e|];
      cbn [of_single]; try discriminate.
    + intros H; inversion H; subst. now rewrite IHs.
    + intros H. apply yield_first_done in H as (ws & H & ->).
      rewrite IHs. cbn [of_single]. now rewrite (IHr _ _ extra _ _ H).
Qed.

(** X13. What the decoder makes of a block does not depend on what follows
    the block in the stream, and what follows is left in the stream as it
    is: a run of [read_single] or [read] that ends normally on [s] ends the
    same way on [s ++ extra], with [extra] appended to the stream it leaves. *)
Theorem decoder_leaves_what_follows fuel decoders default prefix s extra :
  (forall n k v rest,
      read_single fuel decoders default prefix s = YieldPair n k v rest ->
      read_single fuel decoders default prefix (s ++ extra)
      = YieldPair n k v (rest ++ extra))
  /\ (forall n rest,
         read_single fuel decoders default prefix s = YieldTerm n rest ->
         read_single fuel decoders default prefix (s ++ extra)
         = YieldTerm n (rest ++ extra))
  /\ (forall ys rest,
         read fuel decoders default prefix s = Done ys rest ->
         read fuel decoders default prefix (s ++ extra)
         = Done ys (rest ++ extra)).
Proof.
  pose proof (proj1 (read_local fuel decoders default) prefix s extra) as L.
  repeat split.
  - intros n k v rest R. now rewrite R in L.
  - intros n rest R. now rewrite R in L.
  - intros ys rest. apply (proj2 (read_local fuel decoders default)).
Qed.

Lemma decoder_leaves_what_follows_witness :
  read_single 9 DECODERS raise_decoding_error ""
    ([LPair "key" (VPair "L>" (VBytes "")); LPair "" (VBytes "v1"); LTerm]
       ++ [LPair "next" (VBytes "x")])
  = YieldPair 0 "key" (VList [VBytes "v1"]) ([] ++ [LPair "next" (VBytes "x")]).
Proof.
  apply (proj1 (decoder_leaves_what_follows 9 DECODERS raise_decoding_error ""
                  [LPair "key" (VPair "L>" (VBytes "")); LPair "" (VBytes "v1");
                   LTerm]
                  [LPair "next" (VBytes "x")])).
  reflexivity.
Defined.

(** ** [List] blocks *)

(** X14. A [List] block whose children all have the empty key decodes to
    the list of their values, in the order of the stream. *)
Theorem read_single_list_block fuel default prefix key tag suffix s vs rest :
  mem_str tag ["List"; "L"] = true ->
  read fuel DECODERS default (prefix ++ suffix) s
  = Done (map (LPair "") vs) rest ->
  read_single (S fuel) DECODERS default prefix
    (LPair (prefix ++ key) (VPair (tag ++ String gt suffix) (VBytes "")) :: s)
  = YieldPair 0 key (VList vs) rest.
Proof.
  intros M R. destruct (list_alias _ M) as [G F].
  rewrite read_single_header by assumption. rewrite F, R.
  cbn [apply_decoder]. unfold decode_list. simpl truthy. cbv iota.
  unfold consume. now rewrite list_collect_elements.
Qed.

Lemma read_single_list_block_witness :
  read_single 9 DECODERS raise_decoding_error "a."
    [LPair "a.key" (VPair "List>b." (VBytes ""));
     LPair "a.b." (VBytes "v1"); LPair "a.b." (VBytes "v2"); LTerm]
  = YieldPair 0 "key" (VList [VBytes "v1"; VBytes "v2"]) [].
Proof.
  apply (read_single_list_block 8 raise_decoding_error "a." "key" "List" "b."
           [LPair "a.b." (VBytes "v1"); LPair "a.b." (VBytes "v2"); LTerm]
           [VBytes "v1"; VBytes "v2"] []);
    reflexivity.
Defined.

(** ** A stream that ends before the terminal marker of an open block *)

Lemma dict_update_truncated d ys more d2 :
  dict_update d (ys ++ more) = inr d2 -> exists d1, dict_update d ys = inr d1.
Proof.
  revert d. induction ys as [|[| |k v] ys IH]; intros d; simpl;
    try discriminate; eauto.
Qed.

Lemma list_collect_truncated ys more l2 :
  list_collect (ys ++ more) = inr l2 -> exists l1, list_collect ys = inr l1.
Proof.
  revert l2. induction ys as [|[| |k v] ys IH]; intros l2; simpl;
    try discriminate; eauto.
  destruct (ensure_empty_key k v); [discriminate|].
  destruct (list_collect (ys ++ more)) as [e|l] eqn:E; [discriminate|].
  destruct (IH l eq_refl) as (l1 & ->). eauto.
Qed.

(** A handler that made a value of the whole block raises what its
    children raise when they are cut short. *)
Lemma apply_decoder_truncated d v ys more r v' r' e :
  apply_decoder d v (Done (ys ++ more) r) = Value v' r' ->
  apply_decoder d v (Fail ys e) = Raise e.
Proof.
  destruct d; simpl; unfold decode_map, decode_list;
    try (destruct (truthy v); [discriminate|]); simpl; auto.
  - destruct (dict_update [] (ys ++ more)) as [x|d2] eqn:E; [discriminate|].
    destruct (dict_update_truncated _ _ _ _ E) as (d1 & ->). reflexivity.
  - destruct (list_collect (ys ++ more)) as [x|l2] eqn:E; [discriminate|].
    destruct (list_collect_truncated _ _ _ E) as (l1 & ->). reflexivity.
Qed.

Lemma apply_default_truncated d a v ys more r v' r' e :
  apply_default d a v (Done (ys ++ more) r) = Value v' r' ->
  apply_default d a v (Fail ys e) = Raise e.
Proof. destruct d; simpl; auto; discriminate. Qed.

Lemma repeat_none_split n n' :
  n' <= n -> repeat LNone n = repeat LNone n' ++ repeat LNone (n - n').
Proof.
  intros L. rewrite <- repeat_app. f_equal. lia.
Qed.

(** The run of the decoder on [s ++ extra], seen from [s] alone: either it
    ended within [s], and is the same on [s]; or it went on into [extra],
    and on [s] the pull on the exhausted stream raises [EOFError]. *)
Lemma read_cut fuel decoders default :
  (forall prefix s extra,
      match read_single fuel decoders default prefix (s ++ extra) with
      | YieldTerm n rest =>
          (exists r', rest = r' ++ extra
                      /\ read_single fuel decoders default prefix s
                         = YieldTerm n r')
          \/ (length rest < length extra
              /\ exists n', n' <= n
                            /\ read_single fuel decoders default prefix s
                               = Raises n' EOFError)
      | YieldPair n k v rest =>
          (exists r', rest = r' ++ extra
                      /\ read_single fuel decoders default prefix s
                         = YieldPair n k v r')
          \/ (length rest < length extra
              /\ exists n', n' <= n
                            /\ read_single fuel decoders default prefix s
                               = Raises n' EOFError)
      | _ => True
      end)
  /\ (forall prefix s extra ys rest,
         read fuel decoders default prefix (s ++ extra) = Done ys rest ->
         (exists r', rest = r' ++ extra
                     /\ read fuel decoders default prefix s = Done ys r')
         \/ (length rest < length extra
             /\ exists ys' more,
                 ys = ys' ++ more
                 /\ read fuel decoders default prefix s = Fail ys' EOFError)).
Proof.
  induction fuel as [|fuel [IHs IHr]]; split; try (simpl; auto; discriminate).
  - intros prefix [|[| |key v0] s'] extra.
    + (* the stream is exhausted *)
      pose proof (proj1 (read_pulled (S fuel) decoders default) prefix extra)
        as P.
      cbn [app].
      destruct (read_single (S fuel) decoders default prefix extra)
        as [n rest|n k v rest|n e|]; auto; right; split.
      * simpl in P. subst extra. rewrite length_app. simpl. lia.
      * exists 0. split; [lia|reflexivity].
      * now apply single_pulled_shorter in P.
      * exists 0. split; [lia|reflexivity].
    + (* a skip sentinel *)
      cbn [app read_single]. specialize (IHs prefix s' extra).
      destruct (read_single fuel decoders default prefix (s' ++ extra))
        as [n rest|n k v rest|n e|]; simpl; auto;
        destruct IHs as [(r' & -> & R)|(L & n' & Le & R)]; rewrite R; simpl.
      * left. eauto.
      * right. split; [assumption|]. exists (S n'). split; [lia|reflexivity].
      * left. eauto.
      * right. split; [assumption|]. exists (S n'). split; [lia|reflexivity].
    + (* the terminal marker *)
      left. exists s'. split; reflexivity.
    + (* a record *)
      cbn [app read_single].
      destruct (startswith key prefix); cbn [negb]; auto.
      destruct (is_leaf v0); [left; exists s'; split; reflexivity|].
      destruct (split_gt _) as [tag suffix].
      destruct (find_handler tag decoders) as [d|].
      * destruct (apply_decoder d _ (read fuel _ _ _ (s' ++ extra)))
          as [v' rest| |] eqn:E; auto.
        destruct (apply_decoder_value _ _ _ _ _ E) as (ys & R).
        rewrite R in E.
        destruct (IHr _ _ _ _ _ R) as [(r' & -> & R')|(L & ys' & more & -> & R')];
          rewrite R'.
        -- left. exists r'. split; [reflexivity|].
           now rewrite (apply_decoder_rest _ _ _ _ r' _ E).
        -- right. split; [assumption|]. exists 0. split; [lia|].
           now rewrite (apply_decoder_truncated _ _ _ _ _ _ _ EOFError E).
      * destruct (apply_default default _ _ (read fuel _ _ _ (s' ++ extra)))
          as [v' rest| |] eqn:E; auto.
        destruct (apply_default_value _ _ _ _ _ _ E) as (ys & R).
        rewrite R in E.
        destruct (IHr _ _ _ _ _ R) as [(r' & -> & R')|(L & ys' & more & -> & R')];
          rewrite R'.
        -- left. exists r'. split; [reflexivity|].
           now rewrite (apply_default_rest _ _ _ _ _ r' _ E).
        -- right. split; [assumption|]. exists 0. split; [lia|].
           now rewrite (apply_default_truncated _ _ _ _ _ _ _ _ EOFError E).
  - intros prefix s extra ys rest. cbn [read]. specialize (IHs prefix s extra).
    destruct (read_single fuel decoders default prefix (s ++ extra))
      as [n r0|n k v r0|n e|] eqn:S0; cbn [of_single]; try discriminate.
    + intros H; inversion H; subst.
      destruct IHs as [(r' & -> & R)|(L & n' & Le & R)]; rewrite R;
        cbn [of_single].
      * left. eauto.
      * right. split; [assumption|].
        exists (repeat LNone n'), (repeat LNone (n - n')).
        split; [now apply repeat_none_split|reflexivity].
    + intros H. apply yield_first_done in H as (ws & H & ->).
      destruct IHs as [(r' & -> & R)|(L & n' & Le & R)]; rewrite R;
        cbn [of_single].
      * destruct (IHr _ _ _ _ _ H)
          as [(r'' & -> & R')|(L & ws' & more & -> & R')]; rewrite R'; simpl.
        -- left. eauto.
        -- right. split; [assumption|].
           exists ((repeat LNone n ++ [LPair k v]) ++ ws'), more.
           split; [now rewrite app_assoc|reflexivity].
      * right. split.
        -- destruct (proj2 (read_pulled _ _ _) _ _ _ _ H) as (pre & ->).
           rewrite length_app in L. simpl in L. lia.
        -- exists (repeat LNone n'),
             (repeat LNone (n - n') ++ [LPair k v] ++ ws).
           split; [|reflexivity].
           rewrite (repeat_none_split n n') by assumption.
           now rewrite <- !app_assoc.
Qed.

Lemma raw_yield_first_done ys r zs rest :
  raw_yield_first ys r = RawDone zs rest ->
  exists ws, r = RawDone ws rest /\ zs = ys ++ ws.
Proof. destruct r; simpl; intros H; inversion H; subst; eauto. Qed.

Lemma read_no_decoders_cut s :
  forall fuel prefix extra ys rest,
    read_no_decoders fuel prefix (s ++ extra) = RawDone ys rest ->
    length rest < length extra ->
    exists ys', read_no_decoders fuel prefix s = RawFail ys' EOFError.
Proof.
  induction s as [|l s IH]; intros fuel prefix extra ys rest R L;
    (destruct fuel as [|fuel]; [discriminate|]).
  - exists []. reflexivity.
  - destruct l as [| |key v].
    + change (read_no_decoders (S fuel) prefix ((LNone :: s) ++ extra))
        with (raw_of_single
                (raw_skip_more (read_single_no_decoders prefix (s ++ extra)))
                (read_no_decoders fuel prefix)) in R.
      rewrite raw_of_single_skip in R.
      change (raw_of_single (read_single_no_decoders prefix (s ++ extra))
                (read_no_decoders fuel prefix))
        with (read_no_decoders (S fuel) prefix (s ++ extra)) in R.
      apply raw_yield_first_done in R as (ws & R & _).
      destruct (IH _ _ _ _ _ R L) as (ys' & R').
      exists (RawNone :: ys').
      change (read_no_decoders (S fuel) prefix (LNone :: s))
        with (raw_of_single
                (raw_skip_more (read_single_no_decoders prefix s))
                (read_no_decoders fuel prefix)).
      rewrite raw_of_single_skip.
      change (raw_of_single (read_single_no_decoders prefix s)
                (read_no_decoders fuel prefix))
        with (read_no_decoders (S fuel) prefix s).
      now rewrite R'.
    + simpl in R. inversion R; subst. rewrite length_app in L. lia.
    + cbn [read_no_decoders app read_single_no_decoders] in *.
      destruct (startswith key prefix); cbn [negb] in *; [|discriminate].
      destruct (is_leaf v).
      * cbn [raw_of_single repeat app] in *.
        apply raw_yield_first_done in R as (ws & R & _).
        destruct (IH _ _ _ _ _ R L) as (ys' & ->). simpl. eauto.
      * destruct (split_gt _) as [tag suffix].
        cbn [raw_of_single repeat app] in *.
        apply raw_yield_first_done in R as (ws & R & _).
        destruct (IH _ _ _ _ _ R L) as (ys' & ->). simpl. eauto.
Qed.

(** C9. A stream that is exhausted before the terminal marker that closes
    an open block.  Such a stream is written [s], cut out of a stream
    [s ++ extra] on which the decoder returns with the closing marker lying
    in [extra] (what it leaves, [rest], is shorter than [extra]).  On [s]
    the decoder does not return a result: [read] raises [EOFError] after the
    lines it had yielded so far, and [read_single] raises [EOFError] without
    yielding the pair of the open block; this holds for every registry and
    default decoder, for [decoders=None], at every prefix and nesting depth,
    and for the public [decode]; the empty stream and the [Map] block of the
    scenario raise [EOFError]. *)
Theorem exhausted_stream_raises_eof fuel decoders default prefix s extra :
  (forall ys rest,
      read fuel decoders default prefix (s ++ extra) = Done ys rest ->
      length rest < length extra ->
      exists ys' more,
        ys = ys' ++ more
        /\ read fuel decoders default prefix s = Fail ys' EOFError)
  /\ (forall n k v rest,
         read_single fuel decoders default prefix (s ++ extra)
         = YieldPair n k v rest ->
         length rest < length extra ->
         exists n',
           read_single fuel decoders default prefix s = Raises n' EOFError)
  /\ (forall ys rest,
         read_no_decoders fuel prefix (s ++ extra) = RawDone ys rest ->
         length rest < length extra ->
         exists ys', read_no_decoders fuel prefix s = RawFail ys' EOFError)
  /\ (forall ys rest,
         decode_with default (s ++ extra) = Done ys rest ->
         length rest < length extra ->
         exists ys', decode_with default s = Fail ys' EOFError)
  /\ read (S (S fuel)) decoders default prefix [] = Fail [] EOFError
  /\ read_single 9 DECODERS raise_decoding_error ""
       [LPair "key" (VPair "Map>" (VBytes "")); LPair "k1" (VBytes "v1")]
     = Raises 0 EOFError.
Proof.
  repeat match goal with |- _ /\ _ => split end; try reflexivity.
  - intros ys rest R L.
    destruct (proj2 (read_cut fuel decoders default) _ _ _ _ _ R)
      as [(r' & -> & _)|(_ & H)]; [|exact H].
    rewrite length_app in L. lia.
  - intros n k v rest R L.
    pose proof (proj1 (read_cut fuel decoders default) prefix s extra) as C.
    rewrite R in C. destruct C as [(r' & -> & _)|(_ & n' & _ & H)]; [|eauto].
    rewrite length_app in L. lia.
  - intros ys rest. apply read_no_decoders_cut.
  - unfold decode_with. intros ys rest R L.
    destruct (proj2 (read_cut _ DECODERS default) _ _ _ _ _ R)
      as [(r' & -> & _)|(_ & ys' & more & _ & H)].
    + rewrite length_app in L. lia.
    + exists ys'. rewrite <- H. symmetry. apply read_fuel_for.
      apply fuel_for_app_l.
Qed.

Lemma exhausted_stream_raises_eof_witness :
  (exists n',
      read_single 12 DECODERS raise_decoding_error ""
        [LPair "key" (VPair "Map>" (VBytes ""));
         LPair "l" (VPair "L>" (VBytes "")); LPair "" (VBytes "v1"); LTerm]
      = Raises n' EOFError)
  /\ (exists ys',
         decode_with raise_decoding_error
           [LPair "a" (VBytes "1"); LPair "key" (VPair "Map>" (VBytes ""));
            LPair "k1" (VBytes "v1")]
         = Fail ys' EOFError).
Proof.
  split.
  - apply (proj1 (proj2 (exhausted_stream_raises_eof 12 DECODERS
                           raise_decoding_error ""
                           [LPair "key" (VPair "Map>" (VBytes ""));
                            LPair "l" (VPair "L>" (VBytes ""));
                            LPair "" (VBytes "v1"); LTerm]
                           [LTerm]))
             0 "key" (VDict [(KStr "l", VList [VBytes "v1"])]) []).
    + reflexivity.
    + simpl. lia.
  - apply (proj1 (proj2 (proj2 (proj2
             (exhausted_stream_raises_eof 0 DECODERS raise_decoding_error ""
                [LPair "a" (VBytes "1"); LPair "key" (VPair "Map>" (VBytes ""));
                 LPair "k1" (VBytes "v1")]
                [LTerm; LTerm]))))
             [LPair "a" (VBytes "1");
              LPair "key" (VDict [(KStr "k1", VBytes "v1")])] []).
    + reflexivity.
    + simpl. lia.
Defined.

(** Blocks of each kind left open at the end of the stream: a [List]
    block, a [Map] block with a prefix increment, a generic block under
    [default=None], and a [Map] block that holds a closed [List] block. *)
Example open_blocks_raise_eof :
  read_single 9 DECODERS raise_decoding_error ""
    [LPair "key" (VPair "L>" (VBytes "")); LPair "" (VBytes "v1")]
  = Raises 0 EOFError
  /\ read_single 9 DECODERS raise_decoding_error ""
       [LPair "key" (VPair "Map>p." (VBytes "")); LPair "p.k1" (VBytes "v1")]
     = Raises 0 EOFError
  /\ read_single 9 DECODERS DefaultNone ""
       [LPair "key" (VPair "foo>" (VBytes "value")); LPair "k1" (VBytes "v1")]
     = Raises 0 EOFError
  /\ read_single 12 DECODERS raise_decoding_error ""
       [LPair "key" (VPair "Map>" (VBytes ""));
        LPair "l" (VPair "L>" (VBytes "")); LPair "" (VBytes "v1"); LTerm]
     = Raises 0 EOFError
  /\ decode [LPair "key" (VPair "Map>" (VBytes "")); LPair "k1" (VBytes "v1")]
     = Fail [] EOFError.
Proof. repeat split. Qed.
